(** * Binance API relay (index.js): a shallow embedding and its specification

    The relay is an Express application.  Every route is a handler that
    validates its inputs, optionally signs a parameter set with
    [createBinanceSignature], performs at most one [axios.get] against the
    exchange and maps the outcome to a JSON reply.

    Layout of this development:
    - [Crypto]  : the part of Node's [crypto] module the relay calls
                  (HMAC-SHA256 rendered as lowercase hex), over bytes as
                  8-bit integers and 32-bit words with explicit wrap-around;
    - [Js]      : the JavaScript values, the conversion of numbers to
                  strings, objects with their order of enumeration,
                  truthiness and the [parseFloat] sign test the handlers
                  rely on;
    - [Relay]   : [createBinanceSignature] and the route handlers, written
                  in a small monad that records the observable effects
                  (signatures computed, outbound requests, the reply);
    - [Spec]    : the notions the specification speaks of;
    - [Samples] : concrete requests and exchanges;
    - the properties.

    Outside the model: the middleware in front of the routes (CORS, security
    headers, JSON body parsing and the rate limiter that answers 429), the
    [console.error] log lines, and the listening socket. *)

From Stdlib Require Import ZArith QArith Ascii String List Lia.
From stdpp Require Import base list strings gmap pretty.

Set Warnings "-register-all,-clear-no-such-hyp".
Local Open Scope string_scope.
Local Open Scope list_scope.
Local Open Scope Z_scope.

(* ===================================================================== *)
(** * Node's crypto module: [createHmac('sha256', key).update(s).digest('hex')] *)
(* ===================================================================== *)

Module Crypto.

(** 32-bit words are integers in [0, 2^32); every operation that can leave
    that range reduces modulo [2^32]. *)
Definition wrap32 (x : Z) : Z := x mod 2 ^ 32.
Definition add32 (x y : Z) : Z := wrap32 (x + y).
Definition rotr (n x : Z) : Z :=
  Z.lor (Z.shiftr x n) (wrap32 (Z.shiftl x (32 - n))).
Definition not32 (x : Z) : Z := Z.lxor x (2 ^ 32 - 1).

Definition ch (x y z : Z) : Z := Z.lxor (Z.land x y) (Z.land (not32 x) z).
Definition maj (x y z : Z) : Z :=
  Z.lxor (Z.lxor (Z.land x y) (Z.land x z)) (Z.land y z).
Definition big_sigma0 (x : Z) : Z :=
  Z.lxor (Z.lxor (rotr 2 x) (rotr 13 x)) (rotr 22 x).
Definition big_sigma1 (x : Z) : Z :=
  Z.lxor (Z.lxor (rotr 6 x) (rotr 11 x)) (rotr 25 x).
Definition small_sigma0 (x : Z) : Z :=
  Z.lxor (Z.lxor (rotr 7 x) (rotr 18 x)) (Z.shiftr x 3).
Definition small_sigma1 (x : Z) : Z :=
  Z.lxor (Z.lxor (rotr 17 x) (rotr 19 x)) (Z.shiftr x 10).

(** Round constants of SHA-256 (FIPS 180-4, section 4.2.2). *)
Definition round_constants : list Z :=
  [ 0x428A2F98; 0x71374491; 0xB5C0FBCF; 0xE9B5DBA5;
    0x3956C25B; 0x59F111F1; 0x923F82A4; 0xAB1C5ED5;
    0xD807AA98; 0x12835B01; 0x243185BE; 0x550C7DC3;
    0x72BE5D74; 0x80DEB1FE; 0x9BDC06A7; 0xC19BF174;
    0xE49B69C1; 0xEFBE4786; 0x0FC19DC6; 0x240CA1CC;
    0x2DE92C6F; 0x4A7484AA; 0x5CB0A9DC; 0x76F988DA;
    0x983E5152; 0xA831C66D; 0xB00327C8; 0xBF597FC7;
    0xC6E00BF3; 0xD5A79147; 0x06CA6351; 0x14292967;
    0x27B70A85; 0x2E1B2138; 0x4D2C6DFC; 0x53380D13;
    0x650A7354; 0x766A0ABB; 0x81C2C92E; 0x92722C85;
    0xA2BFE8A1; 0xA81A664B; 0xC24B8B70; 0xC76C51A3;
    0xD192E819; 0xD6990624; 0xF40E3585; 0x106AA070;
    0x19A4C116; 0x1E376C08; 0x2748774C; 0x34B0BCB5;
    0x391C0CB3; 0x4ED8AA4A; 0x5B9CCA4F; 0x682E6FF3;
    0x748F82EE; 0x78A5636F; 0x84C87814; 0x8CC70208;
    0x90BEFFFA; 0xA4506CEB; 0xBEF9A3F7; 0xC67178F2 ].

(** The eight working registers / chaining values. *)
Record regs : Type := Regs {
  ra : Z; rb : Z; rc : Z; rd : Z; re : Z; rf : Z; rg : Z; rh : Z
}.

Definition initial_hash : regs :=
  Regs 0x6A09E667 0xBB67AE85 0x3C6EF372 0xA54FF53A
       0x510E527F 0x9B05688C 0x1F83D9AB 0x5BE0CD19.

(** Big-endian packing of bytes into words and back. *)
Definition be32 (x : Z) : list Z :=
  [ Z.shiftr x 24 mod 256; Z.shiftr x 16 mod 256;
    Z.shiftr x 8 mod 256; x mod 256 ].

Definition be64 (x : Z) : list Z :=
  be32 (Z.shiftr x 32 mod 2 ^ 32) ++ be32 (x mod 2 ^ 32).

Fixpoint words_of_bytes (n : nat) (bs : list Z) : list Z :=
  match n with
  | O => []
  | S n' =>
      match bs with
      | b0 :: b1 :: b2 :: b3 :: rest =>
          (Z.shiftl b0 24 + Z.shiftl b1 16 + Z.shiftl b2 8 + b3)
            :: words_of_bytes n' rest
      | _ => []
      end
  end.

(** Message schedule: sixteen words of the block, then forty-eight derived
    words. *)
Definition extend_schedule (w : list Z) : list Z :=
  let t := length w in
  w ++ [ add32 (add32 (add32 (small_sigma1 (nth (t - 2) w 0))
                             (nth (t - 7) w 0))
                      (small_sigma0 (nth (t - 15) w 0)))
               (nth (t - 16) w 0) ].

Definition message_schedule (block : list Z) : list Z :=
  Nat.iter 48 extend_schedule (words_of_bytes 16 block).

Definition round (r : regs) (kw : Z * Z) : regs :=
  let t1 := add32 (add32 (add32 (add32 (rh r) (big_sigma1 (re r)))
                                (ch (re r) (rf r) (rg r)))
                         (fst kw))
                  (snd kw) in
  let t2 := add32 (big_sigma0 (ra r)) (maj (ra r) (rb r) (rc r)) in
  Regs (add32 t1 t2) (ra r) (rb r) (rc r) (add32 (rd r) t1) (re r) (rf r) (rg r).

Definition compress (h : regs) (block : list Z) : regs :=
  let r := fold_left round (combine round_constants (message_schedule block)) h in
  Regs (add32 (ra h) (ra r)) (add32 (rb h) (rb r))
       (add32 (rc h) (rc r)) (add32 (rd h) (rd r))
       (add32 (re h) (re r)) (add32 (rf h) (rf r))
       (add32 (rg h) (rg r)) (add32 (rh h) (rh r)).

(** Padding: a one bit, zeros, and the bit length on 64 bits, up to a
    multiple of 64 bytes. *)
Definition pad (msg : list Z) : list Z :=
  let len := Z.of_nat (length msg) in
  msg ++ [0x80] ++ replicate (Z.to_nat ((55 - len) mod 64)) 0 ++ be64 (8 * len).

Fixpoint blocks (n : nat) (bs : list Z) : list (list Z) :=
  match n with
  | O => []
  | S n' => take 64 bs :: blocks n' (drop 64 bs)
  end.

Definition digest_bytes (r : regs) : list Z :=
  be32 (ra r) ++ be32 (rb r) ++ be32 (rc r) ++ be32 (rd r) ++
  be32 (re r) ++ be32 (rf r) ++ be32 (rg r) ++ be32 (rh r).

Definition sha256 (msg : list Z) : list Z :=
  let p := pad msg in
  digest_bytes (fold_left compress (blocks (length p / 64) p) initial_hash).

(** HMAC (RFC 2104) over SHA-256: block size 64; a longer key is hashed
    first, a shorter one is padded with zero bytes. *)
Definition hmac_key_block (key : list Z) : list Z :=
  let k := if (64 <? Z.of_nat (length key)) then sha256 key else key in
  k ++ replicate (64 - length k) 0.

Definition hmac_sha256 (key msg : list Z) : list Z :=
  let k := hmac_key_block key in
  sha256 (map (Z.lxor 0x5C) k ++ sha256 (map (Z.lxor 0x36) k ++ msg)).

(** Strings are byte strings: a JavaScript string is represented by its
    UTF-8 encoding, which is what [createHmac] and [update] hash. *)
Definition bytes_of_string (s : string) : list Z :=
  map (fun c => Z.of_N (N_of_ascii c)) (list_ascii_of_string s).

(** [digest('hex')]: two lowercase hexadecimal digits per byte. *)
Definition hex_digit (d : Z) : ascii :=
  nth (Z.to_nat d) (list_ascii_of_string "0123456789abcdef") "0"%char.

Definition hex_of_bytes (bs : list Z) : string :=
  string_of_list_ascii (flat_map (fun b => [hex_digit (b / 16); hex_digit (b mod 16)]) bs).

(** The [Hmac] object: the key it was created with and the data fed so far. *)
Record Hmac : Type := { hmac_key : list Z; hmac_data : list Z }.

Definition createHmac_sha256 (key : string) : Hmac :=
  {| hmac_key := bytes_of_string key; hmac_data := [] |}.

Definition update (h : Hmac) (data : string) : Hmac :=
  {| hmac_key := hmac_key h; hmac_data := hmac_data h ++ bytes_of_string data |}.

Definition digest_hex (h : Hmac) : string :=
  hex_of_bytes (hmac_sha256 (hmac_key h) (hmac_data h)).

End Crypto.

(* ===================================================================== *)
(** * The JavaScript values and built-ins the handlers use *)
(* ===================================================================== *)

Module Js.

(** Values stored in a query-parameter object: a missing request field is
    [undefined], [Date.now()] is an integer number, everything read from the
    request is a string. *)
Inductive value : Type :=
| VUndefined
| VNum (n : Z)
| VStr (s : string).

#[global] Instance value_eq_dec : EqDecision value.
Proof. solve_decision. Defined.

(** ** Characters and decimal digits *)
Definition code (c : ascii) : Z := Z.of_N (N_of_ascii c).

Definition is_digit (c : ascii) : bool := (48 <=? code c) && (code c <=? 57).

Definition digits_value (ds : list ascii) : Z :=
  fold_left (fun acc c => 10 * acc + (code c - 48)) ds 0.

(** ** [Number::toString] on integers

    [VNum n] stands for the Number written [n] in the source, that is the
    double nearest to the integer [n] (ties to even).  Up to [2^53] every
    integer is a double and prints with all its decimal digits.  Above, the
    double prints with the fewest significant digits that still read back
    as the same double, padded with zeros while the number has at most 21
    integer digits and in exponent notation from [1e21] on; past the
    largest double the Number is [Infinity]. *)
Definition nearest_double (n : Z) : option Z :=
  let bits := Z.log2 n + 1 in
  if bits <=? 53 then Some n
  else
    let e := bits - 53 in
    let q := Z.shiftr n e in
    let r := n - Z.shiftl q e in
    let half := Z.shiftl 1 (e - 1) in
    let q' := if (half <? r) || ((r =? half) && Z.odd q) then q + 1 else q in
    let x := Z.shiftl q' e in
    if 2 ^ 1024 <=? x then None else Some x.

(** The decimal [s * 10^(n-k)] with the least number [k] of significant
    digits inside the rounding interval of the double [x > 2^53]; among
    two such decimals the one closer to [x], and on a tie the even [s]. *)
Fixpoint shortest_from (fuel : nat) (k : Z) (x lo hi : Z) (closed : bool)
    (len : Z) : Z :=
  match fuel with
  | O => x
  | S fuel' =>
      let t := 10 ^ (len - k) in
      let below := (x / t) * t in
      let above := below + t in
      let inside v :=
        if closed then (lo <=? v) && (v <=? hi) else (lo <? v) && (v <? hi) in
      match inside below, inside above with
      | true, true =>
          if x - below <? above - x then below
          else if above - x <? x - below then above
          else if Z.even (x / t) then below else above
      | true, false => below
      | false, true => above
      | false, false => shortest_from fuel' (k + 1) x lo hi closed len
      end
  end.

Definition shortest (x : Z) : Z :=
  let e := Z.log2 x - 52 in
  let m := Z.shiftr x e in
  let hi := x + 2 ^ (e - 1) in
  let lo := if m =? 2 ^ 52 then x - 2 ^ (e - 2) else x - 2 ^ (e - 1) in
  shortest_from 17 1 x lo hi (Z.even m) (Z.of_nat (String.length (pretty x))).

Fixpoint strip_zeros (cs : list ascii) : list ascii :=
  match cs with
  | [] => []
  | c :: rest =>
      match strip_zeros rest with
      | [] => if code c =? 48 then [] else [c]
      | kept => c :: kept
      end
  end.

Definition number_to_string (n : Z) : string :=
  let sign := if n <? 0 then "-" else "" in
  match nearest_double (Z.abs n) with
  | None => sign +:+ "Infinity"
  | Some x =>
      let digits := pretty (if x <=? 2 ^ 53 then x else shortest x) in
      let len := Z.of_nat (String.length digits) in
      if len <=? 21 then sign +:+ digits
      else
        match strip_zeros (list_ascii_of_string digits) with
        | [] => sign +:+ digits
        | d :: [] => sign +:+ String d ("e+" +:+ pretty (len - 1))
        | d :: more =>
            sign +:+ String d ("." +:+ string_of_list_ascii more
                               +:+ "e+" +:+ pretty (len - 1))
        end
  end.

(** String conversion as performed by a template literal [`${v}`]. *)
Definition to_string (v : value) : string :=
  match v with
  | VUndefined => "undefined"
  | VNum n => number_to_string n
  | VStr s => s
  end.

(** A request field is a string or absent. *)
Definition of_field (o : option string) : value :=
  match o with
  | Some s => VStr s
  | None => VUndefined
  end.

(** Truthiness of a request field: [undefined] and the empty string are
    falsy, every other string is truthy. *)
Definition truthy (o : option string) : bool :=
  match o with
  | Some s => negb (String.eqb s "")
  | None => false
  end.

(** An object used as an ordered map is represented by the list of its own
    properties in the order in which [Object.entries], the spread operator
    and [JSON.stringify] enumerate them: the properties named by an array
    index first, in ascending numeric order, then the others in the order
    of their creation.  The operations below keep a list in that order. *)
Definition object (V : Type) : Type := list (string * V).

(** An array index is the canonical decimal numeral of an integer from 0 to
    [2^32 - 2]. *)
Definition is_array_index (k : string) : bool :=
  match list_ascii_of_string k with
  | [] => false
  | c :: rest =>
      forallb is_digit (c :: rest)
      && (negb (code c =? 48) || bool_decide (rest = []))
      && (digits_value (c :: rest) <=? 4294967294)
  end.

Definition index_value (k : string) : Z := digits_value (list_ascii_of_string k).

Definition has_key {V : Type} (k : string) (o : object V) : bool :=
  existsb (fun kv => String.eqb (fst kv) k) o.

(** The value of an existing property changes in place. *)
Fixpoint overwrite {V : Type} (k : string) (v : V) (o : object V) : object V :=
  match o with
  | [] => []
  | (k', v') :: rest =>
      if String.eqb k' k then (k, v) :: rest else (k', v') :: overwrite k v rest
  end.

(** A new array-index property goes after the smaller indices. *)
Fixpoint insert_index {V : Type} (k : string) (v : V) (o : object V) : object V :=
  match o with
  | [] => [(k, v)]
  | (k', v') :: rest =>
      if is_array_index k' && (index_value k' <? index_value k)
      then (k', v') :: insert_index k v rest
      else (k, v) :: (k', v') :: rest
  end.

(** Definition of an own property, as by an object literal or a spread:
    an existing property keeps its place, a new one is created. *)
Definition define {V : Type} (k : string) (v : V) (o : object V) : object V :=
  if has_key k o then overwrite k v o
  else if is_array_index k then insert_index k v o
  else o ++ [(k, v)].

(** [o[k] = v] on an object created by [{}]: the name [__proto__] reaches
    the accessor inherited from [Object.prototype], which creates no own
    property (it changes the prototype when [v] is an object and does
    nothing otherwise); every other name defines the property. *)
Definition set {V : Type} (k : string) (v : V) (o : object V) : object V :=
  if String.eqb k "__proto__" then o else define k v o.

Fixpoint get {V : Type} (k : string) (o : object V) : option V :=
  match o with
  | [] => None
  | (k', v') :: rest => if String.eqb k' k then Some v' else get k rest
  end.

(** [{...o, k: v}]: copy the own properties of [o], then define [k]. *)
Definition spread_with {V : Type} (o : object V) (k : string) (v : V) : object V :=
  define k v o.

(** The object a caller obtains from [{}] by assigning the given properties
    one after the other. *)
Definition of_insertions {V : Type} (ins : list (string * V)) : object V :=
  fold_left (fun o kv => set (fst kv) (snd kv) o) ins [].

(** [Object.entries(o)]: the own enumerable properties, in the order of
    enumeration, which is the order of the representation. *)
Definition entries {V : Type} (o : object V) : list (string * V) := o.

(** [Array.prototype.join(sep)] on an array of strings. *)
Fixpoint join (sep : string) (xs : list string) : string :=
  match xs with
  | [] => ""
  | x :: rest =>
      match rest with
      | [] => x
      | _ :: _ => x +:+ sep +:+ join sep rest
      end
  end.

(** ** JSON documents *)
Inductive json : Type :=
| JNull
| JBool (b : bool)
| JNum (n : Z)
| JStr (s : string)
| JArr (items : list json)
| JObj (fields : object json).

(** Truthiness of a possibly missing JSON value (the left operand of [||]). *)
Definition json_truthy (o : option json) : bool :=
  match o with
  | None | Some JNull => false
  | Some (JBool b) => b
  | Some (JNum n) => negb (n =? 0)
  | Some (JStr s) => negb (String.eqb s "")
  | Some (JArr _) | Some (JObj _) => true
  end.

(** Property read [j.k]: reading a property of [null] throws a [TypeError]
    (outer [None]); an object yields its field or [undefined]; the other
    JSON values have no such own property. *)
Definition prop (k : string) (j : json) : option (option json) :=
  match j with
  | JNull => None
  | JObj fields => Some (get k fields)
  | _ => Some None
  end.

(** ** [parseFloat(s) > 0]

    [parseFloat] skips leading white space, reads the longest prefix that is
    a decimal literal (optional sign, digits with an optional fraction, an
    optional exponent, or [Infinity]) and rounds its value to the nearest
    double; without such a prefix the result is [NaN].  The comparison with
    zero only needs the sign of that double, which is decided exactly on
    integers: a literal [m * 10^e] with [m > 0] rounds to a positive double
    iff it exceeds half the least subnormal, [2^-1075]. *)

(** White space and line terminators, in their UTF-8 encoding. *)
Fixpoint skip_space (cs : list ascii) : list ascii :=
  match cs with
  | c :: rest =>
      if (code c =? 9) || (code c =? 10) || (code c =? 11) || (code c =? 12)
         || (code c =? 13) || (code c =? 32)
      then skip_space rest
      else cs
  | [] => []
  end.

Definition unicode_space (a b c : Z) : bool :=
  ((a =? 0xE1) && (b =? 0x9A) && (c =? 0x80))
  || ((a =? 0xE2) && (b =? 0x80)
      && (((0x80 <=? c) && (c <=? 0x8A)) || (c =? 0xA8) || (c =? 0xA9) || (c =? 0xAF)))
  || ((a =? 0xE2) && (b =? 0x81) && (c =? 0x9F))
  || ((a =? 0xE3) && (b =? 0x80) && (c =? 0x80))
  || ((a =? 0xEF) && (b =? 0xBB) && (c =? 0xBF)).

Fixpoint trim_start (fuel : nat) (cs : list ascii) : list ascii :=
  match fuel with
  | O => cs
  | S fuel' =>
      match skip_space cs with
      | a :: b :: rest =>
          if (code a =? 0xC2) && (code b =? 0xA0) then trim_start fuel' rest
          else
            match rest with
            | c :: rest' =>
                if unicode_space (code a) (code b) (code c)
                then trim_start fuel' rest'
                else a :: b :: rest
            | [] => a :: b :: rest
            end
      | short => short
      end
  end.

Fixpoint span_digits (cs : list ascii) : list ascii * list ascii :=
  match cs with
  | c :: rest =>
      if is_digit c
      then let '(ds, tl) := span_digits rest in (c :: ds, tl)
      else ([], cs)
  | [] => ([], [])
  end.

(** The exponent part [e], [e+] or [e-] followed by at least one digit;
    anything else is not part of the literal. *)
Definition exponent (cs : list ascii) : Z :=
  match cs with
  | e :: rest =>
      if (code e =? 101) || (code e =? 69) then
        match rest with
        | s :: rest' =>
            if code s =? 45 then
              match fst (span_digits rest') with
              | [] => 0
              | ds => - digits_value ds
              end
            else if code s =? 43 then digits_value (fst (span_digits rest'))
            else digits_value (fst (span_digits rest))
        | [] => 0
        end
      else 0
  | [] => 0
  end.

Definition starts_with (p : string) (cs : list ascii) : bool :=
  bool_decide (take (String.length p) cs = list_ascii_of_string p).

Definition unsigned_positive (cs : list ascii) : bool :=
  if starts_with "Infinity" cs then true
  else
    let '(int_part, after_int) := span_digits cs in
    let '(frac_part, after_frac) :=
      match after_int with
      | dot :: rest =>
          if code dot =? 46 then span_digits rest else ([], after_int)
      | [] => ([], [])
      end in
    match int_part ++ frac_part with
    | [] => false
    | mantissa =>
        let m := digits_value mantissa in
        let e := exponent after_frac - Z.of_nat (length frac_part) in
        if 0 <=? e then 0 <? m
        else 10 ^ (- e) <? m * 2 ^ 1075
    end.

Definition parseFloat_positive (s : string) : bool :=
  let cs := list_ascii_of_string s in
  match trim_start (length cs) cs with
  | sign :: rest =>
      if code sign =? 45 then false
      else if code sign =? 43 then unsigned_positive rest
      else unsigned_positive (sign :: rest)
  | [] => false
  end.

End Js.

(* ===================================================================== *)
(** * The relay: index.js *)
(* ===================================================================== *)

Module Relay.
Import Js.

Definition BINANCE_API_BASE : string := "https://api.binance.com".

(** ** The signature helper (index.js, lines 43-52) *)
Definition queryString (queryStringParams : object value) : string :=
  join "&" (map (fun '(key, value) => key +:+ "=" +:+ to_string value)
                (entries queryStringParams)).

Definition createBinanceSignature
    (apiSecret : string) (queryStringParams : object value) : string :=
  Crypto.digest_hex
    (Crypto.update (Crypto.createHmac_sha256 apiSecret)
                   (queryString queryStringParams)).

(** ** Requests, the exchange, and what a handler can be seen to do *)

(** The parts of an Express request the handlers read: [req.headers]
    (names in lower case), [req.query] and the route parameters
    [req.params].  A field is a string or absent; a repeated or bracketed
    query field, which Express would parse into an array or an object, is
    outside the model. *)
Record request : Type := {
  req_headers : gmap string string;
  req_query : gmap string string;
  req_params : gmap string string
}.

(** One call [axios.get(url, { params, headers })]. *)
Record outbound : Type := {
  url : string;
  params : object value;
  headers : object string
}.

(** axios leaves [undefined] parameters out of the query string it sends. *)
Definition sent_params (r : outbound) : object value :=
  filter (fun kv => kv.2 <> VUndefined) (params r).

(** [error.response] of a rejected call: present when the exchange answered
    with a non-2xx status, absent on a transport failure. *)
Record error_response : Type := {
  response_status : Z;
  response_data : json
}.

Record axios_error : Type := {
  message : string;
  response : option error_response
}.

(** The outcome of [await axios.get(...)]; [D] is the shape of the 2xx body
    the handler at hand reads ([response.data]). *)
Inductive axios_result (D : Type) : Type :=
| Fulfilled (data : D)
| Rejected (error : axios_error).
Arguments Fulfilled {D} data.
Arguments Rejected {D} error.

(** What a [catch (error)] clause can receive. *)
Inductive exn : Type :=
| AxiosError (e : axios_error)
| TypeError (msg : string).

Definition error_message (error : exn) : string :=
  match error with
  | AxiosError e => message e
  | TypeError msg => msg
  end.

Definition error_response_of (error : exn) : option error_response :=
  match error with
  | AxiosError e => response e
  | TypeError _ => None
  end.

(** The observable effects of a handler, in the order they happen. *)
Inductive event : Type :=
| Signed (apiSecret : string) (queryParams : object value)
| Requested (r : outbound)
| Replied (status : Z) (body : json).

(** The world a handler runs in: the clock read by [Date.now()] and the
    exchange answering outbound calls.  A handler is followed up to the
    settlement of its call, fulfilled or rejected; the relay sets no
    timeout, and a call that never settles, which leaves the request
    unanswered, has no counterpart here. *)
Record env (D : Type) : Type := {
  now : Z;
  exchange : outbound -> axios_result D
}.
Arguments now {D} _.
Arguments exchange {D} _ _.

(** Handler code: reads the world, appends to the trace, and either
    completes or throws. *)
Definition io (D A : Type) : Type := env D -> list event * (exn + A).

#[global] Instance io_ret {D : Type} : MRet (io D) :=
  fun A a _ => ([], inr a).

#[global] Instance io_bind {D : Type} : MBind (io D) :=
  fun A B k m w =>
    match m w with
    | (t, inr a) => let '(t', r) := k a w in (t ++ t', r)
    | (t, inl e) => (t, inl e)
    end.

Definition throw {D A : Type} (e : exn) : io D A := fun _ => ([], inl e).

Definition try_catch {D A : Type} (body : io D A) (handler : exn -> io D A) : io D A :=
  fun w =>
    match body w with
    | (t, inl e) => let '(t', r) := handler e w in (t ++ t', r)
    | done => done
    end.

Definition emit {D : Type} (e : event) : io D unit := fun _ => ([e], inr tt).

Definition date_now {D : Type} : io D Z := fun w => ([], inr (now w)).

Definition axios_get {D : Type}
    (u : string) (ps : object value) (hs : object string) : io D D :=
  fun w =>
    let r := {| url := u; params := ps; headers := hs |} in
    ([Requested r],
     match exchange w r with
     | Fulfilled data => inr data
     | Rejected error => inl (AxiosError error)
     end).

(** [res.status(s).json(body)]; [res.json(body)] is the case [s = 200]. *)
Definition res_json {D : Type} (status : Z) (body : json) : io D unit :=
  emit (Replied status body).

(** A call of [createBinanceSignature], recorded in the trace. *)
Definition sign {D : Type} (apiSecret : string) (queryParams : object value) : io D string :=
  fun _ => ([Signed apiSecret queryParams],
            inr (createBinanceSignature apiSecret queryParams)).

(** Running a handler: the trace it leaves. *)
Definition run {D A : Type} (h : io D A) (w : env D) : list event := (h w).1.

Definition requests (t : list event) : list outbound :=
  omap (fun e => match e with Requested r => Some r | _ => None end) t.

Definition signatures (t : list event) : list (string * object value) :=
  omap (fun e => match e with Signed s q => Some (s, q) | _ => None end) t.

Definition replies (t : list event) : list (Z * json) :=
  omap (fun e => match e with Replied s b => Some (s, b) | _ => None end) t.

(** ** Bodies the exchange sends on success, as far as a handler reads them *)

(** An entry of the bulk ticker: [{symbol, price}]. *)
Record price_item : Type := { symbol : string; price : string }.

(** An entry of the account's [balances] array. *)
Record balance : Type := { asset : string; free : string; locked : string }.

(** The account document, of which only the [balances] field is read; the
    field may be missing. *)
Record account_info : Type := { balances : option (list balance) }.

(** ** Shared fragments of the handlers *)

(** The value of a field known to be truthy. *)
Definition str (o : option string) : string := default "" o.

(** [a || b] where [a] is a property that may be missing. *)
Definition or_else (a : option json) (b : json) : json :=
  match a with
  | Some v => if json_truthy a then v else b
  | None => b
  end.

(** [if (req.query.k) queryParams.k = req.query.k]. *)
Definition set_if_present (k : string) (field : option string)
    (queryParams : object value) : object value :=
  if truthy field then set k (of_field field) queryParams else queryParams.

(** The catch clause of the routes without credentials other than
    [/price/:symbol] and [/ping]: a fixed status 500 with the error's
    message (lines 106-109, 117-120, 131-134, 149-152). *)
Definition catch_500 {D : Type} (error : exn) : io D unit :=
  res_json 500 (JObj [("error", JStr (error_message error))]).

(** The catch clause of the four account routes; they differ in the label
    only (lines 199-212, 246-259, 299-312, 364-377). *)
Definition catch_account {D : Type} (label : string) (error : exn) : io D unit :=
  match error_response_of error with
  | Some r =>
      match prop "msg" (response_data r) with
      | Some msg =>
          res_json (response_status r)
            (JObj [("error", JStr label);
                   ("code", JNum (response_status r));
                   ("message", or_else msg (JStr (error_message error)))])
      | None => throw (TypeError "Cannot read properties of null (reading 'msg')")
      end
  | None => res_json 500 (JObj [("error", JStr (error_message error))])
  end.

(** The reply to a request without credentials (lines 162-167 and its
    three copies). *)
Definition missing_credentials : json :=
  JObj [("error", JStr "Missing API credentials");
        ("message", JStr "X-API-KEY and X-API-SECRET headers are required for account endpoints")].

(** The parameter sets the account routes assemble before signing. *)
Definition account_params (timestamp : Z) : object value :=
  [("timestamp", VNum timestamp)].

Definition openOrders_params (timestamp : Z) (query : gmap string string) : object value :=
  set_if_present "symbol" (query !! "symbol") [("timestamp", VNum timestamp)].

Definition myTrades_params (timestamp : Z) (query : gmap string string) : object value :=
  set_if_present "endTime" (query !! "endTime")
    (set_if_present "startTime" (query !! "startTime")
       (set_if_present "fromId" (query !! "fromId")
          (set_if_present "limit" (query !! "limit")
             [("timestamp", VNum timestamp);
              ("symbol", of_field (query !! "symbol"))]))).

(** Signing and dispatching, as every account route does it: compute the
    signature over [queryParams], then GET with [{...queryParams, signature}]
    and the key in the [X-MBX-APIKEY] header. *)
Definition signed_get {D : Type} (path : string)
    (apiKey apiSecret : option string) (queryParams : object value) : io D D :=
  signature ← sign (str apiSecret) queryParams;
  axios_get (BINANCE_API_BASE +:+ path)
            (spread_with queryParams "signature" (VStr signature))
            [("X-MBX-APIKEY", str apiKey)].

(** ** The routes *)

(** GET / (lines 55-57). *)
Definition get_root {D : Type} (req : request) : io D unit :=
  res_json 200 (JObj [("status", JStr "online"); ("service", JStr "Binance API Relay")]).

(** GET /ping (lines 60-68). *)
Definition get_ping (req : request) : io json unit :=
  try_catch
    (axios_get (BINANCE_API_BASE +:+ "/api/v3/ping") [] [];;
     res_json 200 (JObj [("status", JStr "success"); ("binance_status", JStr "online")]))
    (fun error =>
       res_json 500 (JObj [("status", JStr "error"); ("message", JStr (error_message error))])).

(** GET /price/:symbol (lines 71-92). *)
Definition get_price (req : request) : io price_item unit :=
  try_catch
    (data ← axios_get (BINANCE_API_BASE +:+ "/api/v3/ticker/price")
                      [("symbol", of_field (req_params req !! "symbol"))] [];
     res_json 200 (JObj [("price", JStr (price data))]))
    (fun error =>
       match error_response_of error with
       | Some r =>
           res_json (response_status r)
             (JObj [("error", JStr "Failed to fetch price from Binance");
                    ("details", response_data r)])
       | None => res_json 500 (JObj [("error", JStr (error_message error))])
       end).

(** The object built by the [forEach] loop of GET /prices. *)
Definition prices_object (data : list price_item) : object json :=
  fold_left (fun prices item => set (symbol item) (JStr (price item)) prices) data [].

(** GET /prices (lines 95-110). *)
Definition get_prices (req : request) : io (list price_item) unit :=
  try_catch
    (data ← axios_get (BINANCE_API_BASE +:+ "/api/v3/ticker/price") [] [];
     res_json 200 (JObj (prices_object data)))
    catch_500.

(** GET /exchangeInfo (lines 113-121). *)
Definition get_exchangeInfo (req : request) : io json unit :=
  try_catch
    (data ← axios_get (BINANCE_API_BASE +:+ "/api/v3/exchangeInfo") [] [];
     res_json 200 data)
    catch_500.

(** GET /klines (lines 124-135). *)
Definition get_klines (req : request) : io json unit :=
  try_catch
    (data ← axios_get (BINANCE_API_BASE +:+ "/api/v3/klines")
                      [("symbol", of_field (req_query req !! "symbol"));
                       ("interval", of_field (req_query req !! "interval"));
                       ("limit", of_field (req_query req !! "limit"))] [];
     res_json 200 data)
    catch_500.

(** GET /ticker/24hr (lines 138-153). *)
Definition get_ticker_24hr (req : request) : io json unit :=
  try_catch
    (data ← (if truthy (req_query req !! "symbol")
             then axios_get (BINANCE_API_BASE +:+ "/api/v3/ticker/24hr")
                            [("symbol", of_field (req_query req !! "symbol"))] []
             else axios_get (BINANCE_API_BASE +:+ "/api/v3/ticker/24hr") [] []);
     res_json 200 data)
    catch_500.

(** The filter and the reshaping of GET /balances (lines 187-193). *)
Definition nonzero (b : balance) : bool :=
  parseFloat_positive (free b) || parseFloat_positive (locked b).

Definition reshape (b : balance) : json :=
  JObj [("asset", JStr (asset b));
        ("available", JStr (free b));
        ("onOrder", JStr (locked b))].

(** GET /balances (lines 156-213). *)
Definition get_balances (req : request) : io (option account_info) unit :=
  try_catch
    (let apiKey := req_headers req !! "x-api-key" in
     let apiSecret := req_headers req !! "x-api-secret" in
     if negb (truthy apiKey) || negb (truthy apiSecret)
     then res_json 400 missing_credentials
     else
       timestamp ← date_now;
       data ← signed_get "/api/v3/account" apiKey apiSecret (account_params timestamp);
       match data with
       | Some {| balances := Some bs |} =>
           res_json 200 (JArr (map reshape (List.filter nonzero bs)))
       | _ => res_json 500 (JObj [("error", JStr "Invalid response from Binance API")])
       end)
    (catch_account "Failed to fetch balances from Binance").

(** GET /account (lines 216-260). *)
Definition get_account (req : request) : io json unit :=
  try_catch
    (let apiKey := req_headers req !! "x-api-key" in
     let apiSecret := req_headers req !! "x-api-secret" in
     if negb (truthy apiKey) || negb (truthy apiSecret)
     then res_json 400 missing_credentials
     else
       timestamp ← date_now;
       data ← signed_get "/api/v3/account" apiKey apiSecret (account_params timestamp);
       res_json 200 data)
    (catch_account "Failed to fetch account info from Binance").

(** GET /openOrders (lines 263-313). *)
Definition get_openOrders (req : request) : io json unit :=
  try_catch
    (let apiKey := req_headers req !! "x-api-key" in
     let apiSecret := req_headers req !! "x-api-secret" in
     if negb (truthy apiKey) || negb (truthy apiSecret)
     then res_json 400 missing_credentials
     else
       timestamp ← date_now;
       data ← signed_get "/api/v3/openOrders" apiKey apiSecret
                         (openOrders_params timestamp (req_query req));
       res_json 200 data)
    (catch_account "Failed to fetch open orders from Binance").

(** GET /myTrades (lines 316-378). *)
Definition get_myTrades (req : request) : io json unit :=
  try_catch
    (let apiKey := req_headers req !! "x-api-key" in
     let apiSecret := req_headers req !! "x-api-secret" in
     if negb (truthy apiKey) || negb (truthy apiSecret)
     then res_json 400 missing_credentials
     else if negb (truthy (req_query req !! "symbol"))
     then res_json 400
            (JObj [("error", JStr "Missing symbol parameter");
                   ("message", JStr "Symbol parameter is required for myTrades endpoint")])
     else
       timestamp ← date_now;
       data ← signed_get "/api/v3/myTrades" apiKey apiSecret
                         (myTrades_params timestamp (req_query req));
       res_json 200 data)
    (catch_account "Failed to fetch trade history from Binance").

(** ** The two stand-alone functions of the repository *)

(** GET /api/market-data/:symbol (lines 396-405 of the sources): the symbol
    is spliced into the URL, the body is passed through, any failure is a
    500 with a fixed message. *)
Definition get_market_data (req : request) : io json unit :=
  try_catch
    (data ← axios_get ("https://api.binance.com/api/v3/ticker/price?symbol="
                       +:+ to_string (of_field (req_params req !! "symbol"))) [] [];
     res_json 200 data)
    (fun err => res_json 500 (JObj [("error", JStr "Failed to fetch data from Binance")])).

(** The serverless price function (16 lines, file name unknown): the
    symbol is read from the query string and required. *)
Definition get_symbol_price (req : request) : io json unit :=
  let symbol := req_query req !! "symbol" in
  if negb (truthy symbol)
  then res_json 400 (JObj [("error", JStr "Symbol is required")])
  else
    try_catch
      (data ← axios_get ("https://api.binance.com/api/v3/ticker/price?symbol="
                         +:+ str symbol) [] [];
       res_json 200 data)
      (fun error => res_json 500 (JObj [("error", JStr "Failed to fetch data from Binance")])).

(** ** The route table ([app.get(path, handler)]) *)

Inductive route : Type :=
| Root | Ping | Price | Prices | ExchangeInfo | Klines | Ticker24hr
| Balances | Account | OpenOrders | MyTrades.

Definition path (r : route) : string :=
  match r with
  | Root => "/"
  | Ping => "/ping"
  | Price => "/price/:symbol"
  | Prices => "/prices"
  | ExchangeInfo => "/exchangeInfo"
  | Klines => "/klines"
  | Ticker24hr => "/ticker/24hr"
  | Balances => "/balances"
  | Account => "/account"
  | OpenOrders => "/openOrders"
  | MyTrades => "/myTrades"
  end.

(** The shape of the 2xx body each handler reads: the documented reply of
    the upstream endpoint where the handler takes the body apart, any JSON
    document where it passes the body on.  A 2xx body of another shape, on
    which the reads of /price, /prices or /balances throw, has no
    counterpart here. *)
Definition body_of (r : route) : Type :=
  match r with
  | Price => price_item
  | Prices => list price_item
  | Balances => option account_info
  | _ => json
  end.

Definition handler (r : route) : request -> io (body_of r) unit :=
  match r with
  | Root => get_root
  | Ping => get_ping
  | Price => get_price
  | Prices => get_prices
  | ExchangeInfo => get_exchangeInfo
  | Klines => get_klines
  | Ticker24hr => get_ticker_24hr
  | Balances => get_balances
  | Account => get_account
  | OpenOrders => get_openOrders
  | MyTrades => get_myTrades
  end.

(** The account-scoped routes, their upstream path and the parameter set
    each assembles from the clock and the query string. *)
Definition account_scoped (r : route) : bool :=
  match r with
  | Balances | Account | OpenOrders | MyTrades => true
  | _ => false
  end.

Definition upstream_path (r : route) : string :=
  match r with
  | Root => ""
  | Ping => "/api/v3/ping"
  | Price | Prices => "/api/v3/ticker/price"
  | ExchangeInfo => "/api/v3/exchangeInfo"
  | Klines => "/api/v3/klines"
  | Ticker24hr => "/api/v3/ticker/24hr"
  | Balances | Account => "/api/v3/account"
  | OpenOrders => "/api/v3/openOrders"
  | MyTrades => "/api/v3/myTrades"
  end.

Definition assembled (r : route) (timestamp : Z) (query : gmap string string) : object value :=
  match r with
  | OpenOrders => openOrders_params timestamp query
  | MyTrades => myTrades_params timestamp query
  | _ => account_params timestamp
  end.

End Relay.

(* ===================================================================== *)
(** * Specification-side definitions *)
(* ===================================================================== *)

Module Spec.
Import Js Relay.

(** The canonical string in the words of the specification:
    [key1=value1&key2=value2&...], entries in the order given, values as
    their plain string or number representation. *)
Fixpoint canonical (P : list (string * value)) : string :=
  match P with
  | [] => ""
  | (k, v) :: rest =>
      k +:+ "=" +:+ to_string v +:+
      match rest with
      | [] => ""
      | _ :: _ => "&" +:+ canonical rest
      end
  end.

(** The same on bytes: every byte of a key and of a value enters the
    message as it is, [=] (61) between key and value, [&] (38) between
    entries. *)
Fixpoint canonical_bytes (P : list (string * value)) : list Z :=
  match P with
  | [] => []
  | (k, v) :: rest =>
      Crypto.bytes_of_string k ++ [61] ++ Crypto.bytes_of_string (to_string v) ++
      match rest with
      | [] => []
      | _ :: _ => 38 :: canonical_bytes rest
      end
  end.

(** A lowercase hexadecimal string. *)
Definition lower_hex (s : string) : Prop :=
  Forall (fun c => c ∈ list_ascii_of_string "0123456789abcdef")
         (list_ascii_of_string s).

(** The rendering of a SHA-256 digest: 64 lowercase hexadecimal digits. *)
Definition is_digest (s : string) : Prop :=
  String.length s = 64%nat /\ lower_hex s.

(** A key that cannot be confused with the [=] separator. *)
Fixpoint no_equals (k : string) : Prop :=
  match k with
  | EmptyString => True
  | String c k' => c <> "="%char /\ no_equals k'
  end.

(** A header or query field that is absent or the empty string. *)
Definition absent_or_empty (o : option string) : Prop :=
  o = None \/ o = Some "".

(** ** Amounts

    An amount as the exchange writes it: a decimal numeral, that is one or
    more digits, optionally followed by a point and further digits.  Its
    value is the rational number the numeral denotes. *)
Fixpoint position (c : ascii) (cs : list ascii) (n : Z) : option Z :=
  match cs with
  | [] => None
  | d :: rest => if Ascii.eqb c d then Some n else position c rest (n + 1)
  end.

Definition digit (c : ascii) : option Z :=
  position c (list_ascii_of_string "0123456789") 0.

Fixpoint numeral (cs : list ascii) : option (list Z) :=
  match cs with
  | [] => Some []
  | c :: rest =>
      match digit c, numeral rest with
      | Some d, Some ds => Some (d :: ds)
      | _, _ => None
      end
  end.

Fixpoint split_at_point (cs : list ascii) : list ascii * option (list ascii) :=
  match cs with
  | [] => ([], None)
  | c :: rest =>
      if Ascii.eqb c "." then ([], Some rest)
      else let '(before, after) := split_at_point rest in (c :: before, after)
  end.

Record decimal : Type := { units : list Z; decimals : list Z }.

Definition read_decimal (s : string) : option decimal :=
  let '(before, after) := split_at_point (list_ascii_of_string s) in
  match numeral before, numeral (default [] after) with
  | Some (u :: us), Some ds => Some {| units := u :: us; decimals := ds |}
  | _, _ => None
  end.

Definition number_of (ds : list Z) : Z := fold_left (fun acc d => 10 * acc + d) ds 0.

Definition amount (d : decimal) : Q :=
  Qmake (number_of (units d ++ decimals d))
        (Z.to_pos (10 ^ Z.of_nat (length (decimals d)))).

(** The amount written by [s] is greater than zero. *)
Definition positive_amount (s : string) : Prop :=
  match read_decimal s with
  | Some d => Qlt 0 (amount d)
  | None => False
  end.

(** [s] is a decimal numeral with at most 323 digits after the point. *)
Definition plain_amount (s : string) : Prop :=
  match read_decimal s with
  | Some d => (length (decimals d) <= 323)%nat
  | None => False
  end.


(** ** Property names

    A name that is neither an array index nor [__proto__]: properties with
    such names are enumerated in the order of their creation. *)
Definition ordinary_name (k : string) : Prop :=
  is_array_index k = false /\ k <> "__proto__".

(** The order of enumeration: array indices in ascending numeric order
    before every other name. *)
Definition key_before (k1 k2 : string) : Prop :=
  if is_array_index k1
  then (if is_array_index k2 then index_value k1 <= index_value k2 else True)
  else is_array_index k2 = false.

Inductive enumeration_ordered : list string -> Prop :=
| ordered_nil : enumeration_ordered []
| ordered_cons k ks :
    Forall (key_before k) ks -> enumeration_ordered ks ->
    enumeration_ordered (k :: ks).

(** The outbound request of an account route in the words of the
    specification: the assembled parameter set plus the signature as query
    parameters, the API key in its dedicated header and nowhere else. *)
Definition signed_request (r : route) (apiKey apiSecret : string)
    (timestamp : Z) (query : gmap string string) : outbound :=
  let P := assembled r timestamp query in
  {| url := BINANCE_API_BASE +:+ upstream_path r;
     params := P ++ [("signature", VStr (createBinanceSignature apiSecret P))];
     headers := [("X-MBX-APIKEY", apiKey)] |}.

(** The two credential headers of a request. *)
Definition api_key (req : request) : option string := req_headers req !! "x-api-key".
Definition api_secret (req : request) : option string := req_headers req !! "x-api-secret".

(** The error label of each account route. *)
Definition failure_label (r : route) : string :=
  match r with
  | Balances => "Failed to fetch balances from Binance"
  | Account => "Failed to fetch account info from Binance"
  | OpenOrders => "Failed to fetch open orders from Binance"
  | MyTrades => "Failed to fetch trade history from Binance"
  | Price => "Failed to fetch price from Binance"
  | _ => ""
  end.

(** The outbound calls of GET /prices and GET /klines. *)
Definition ticker_call : outbound :=
  {| url := BINANCE_API_BASE +:+ "/api/v3/ticker/price"; params := []; headers := [] |}.

Definition klines_call (req : request) : outbound :=
  {| url := BINANCE_API_BASE +:+ "/api/v3/klines";
     params := [("symbol", of_field (req_query req !! "symbol"));
                ("interval", of_field (req_query req !! "interval"));
                ("limit", of_field (req_query req !! "limit"))];
     headers := [] |}.

(** The query fields named [ks] that a request supplies, as parameters. *)
Definition supplied (req : request) (ks : list string) : object value :=
  omap (fun k => (fun s => (k, VStr s)) <$> (req_query req !! k)) ks.

(** An entry of the bulk ticker as a property of the reply. *)
Definition price_entry (item : price_item) : string * json :=
  (symbol item, JStr (price item)).

(** The routes whose catch clause answers a fixed 500. *)
Definition fixed_500 (r : route) : bool :=
  match r with
  | Ping | Prices | ExchangeInfo | Klines | Ticker24hr => true
  | _ => false
  end.

(** What an account route replies to a 2xx body. *)
Definition on_success (r : route) : body_of r -> list event :=
  match r return body_of r -> list event with
  | Balances => fun data =>
      match data with
      | Some {| balances := Some bs |} =>
          [Replied 200 (JArr (map reshape (List.filter nonzero bs)))]
      | _ => [Replied 500 (JObj [("error", JStr "Invalid response from Binance API")])]
      end
  | Account => fun data => [Replied 200 data]
  | OpenOrders => fun data => [Replied 200 data]
  | MyTrades => fun data => [Replied 200 data]
  | _ => fun _ => []
  end.

(** ** Notions used by the properties of the whole route table *)

(** How a handler ends: normally, or with an exception that escapes it. *)
Definition completion {D A : Type} (h : io D A) (w : env D) : exn + A := (h w).2.

(** The reply of /myTrades to a request without symbol (lines 330-335). *)
Definition missing_symbol : json :=
  JObj [("error", JStr "Missing symbol parameter");
        ("message", JStr "Symbol parameter is required for myTrades endpoint")].

Definition symbol_missing (r : route) (req : request) : bool :=
  match r with
  | MyTrades => negb (truthy (req_query req !! "symbol"))
  | _ => false
  end.

(** The exception that escapes a catch clause reading [msg] of a [null]
    error body. *)
Definition null_body_crash : exn :=
  TypeError "Cannot read properties of null (reading 'msg')".

(** The body of the 500 a route sends when the exchange gave no response. *)
Definition transport_failure_body (r : route) (error : axios_error) : json :=
  match r with
  | Ping => JObj [("status", JStr "error"); ("message", JStr (message error))]
  | _ => JObj [("error", JStr (message error))]
  end.

(** The routes that hand a 2xx body on unchanged, and that body as JSON. *)
Definition passthrough (r : route) : bool :=
  match r with
  | ExchangeInfo | Klines | Ticker24hr | Account | OpenOrders | MyTrades => true
  | _ => false
  end.

Definition passed_body (r : route) : body_of r -> option json :=
  match r return body_of r -> option json with
  | ExchangeInfo => Some
  | Klines => Some
  | Ticker24hr => Some
  | Account => Some
  | OpenOrders => Some
  | MyTrades => Some
  | _ => fun _ => None
  end.

(** The query fields named [ks] that are truthy, as parameters, in the
    order of [ks]. *)
Definition present (query : gmap string string) (ks : list string) : object value :=
  omap (fun k => if truthy (query !! k) then Some (k, of_field (query !! k)) else None) ks.

Definition required_fields (r : route) (query : gmap string string) : object value :=
  match r with
  | MyTrades => [("symbol", of_field (query !! "symbol"))]
  | _ => []
  end.

Definition optional_names (r : route) : list string :=
  match r with
  | OpenOrders => ["symbol"]
  | MyTrades => ["limit"; "fromId"; "startTime"; "endTime"]
  | _ => []
  end.

(** A rendered value that cannot be confused with the [&] separator. *)
Fixpoint no_ampersand (s : string) : Prop :=
  match s with
  | EmptyString => True
  | String c s' => c <> "&"%char /\ no_ampersand s'
  end.

(** A parameter set as the canonical string shows it: keys and rendered
    values. *)
Definition rendered (P : object value) : list (string * string) :=
  map (fun '(k, v) => (k, to_string v)) P.

(** An entry whose key holds no [=] and whose rendered value holds no [&]. *)
Definition well_formed_entry (e : string * value) : Prop :=
  no_equals e.1 /\ no_ampersand (to_string e.2).

End Spec.

(* ===================================================================== *)
(** * Sample requests and exchanges *)
(* ===================================================================== *)

Module Samples.
Import Js Relay Spec.

Definition request_of (hs qs : list (string * string)) : request :=
  {| req_headers := list_to_map hs; req_query := list_to_map qs; req_params := ∅ |}.

Definition anonymous : request := request_of [] [].

Definition with_credentials (qs : list (string * string)) : request :=
  request_of [("x-api-key", "key-1"); ("x-api-secret", "s3cr3t")] qs.

(** A trade-history request and the outbound call it leads to when the
    clock reads 1700000000000. *)
(** An amount of [10^-324]: greater than zero, below half the least
    positive double. *)
Definition dust : string :=
  "0." +:+ string_of_list_ascii (replicate 323 "0"%char) +:+ "1".

Definition trades_request : request := with_credentials [("symbol", "BTCUSDT")].

Definition trades_call : outbound :=
  signed_request MyTrades "key-1" "s3cr3t" 1700000000000 (req_query trades_request).

(** An exchange that answers every call with the same 2xx body. *)
Definition answering {D : Type} (body : D) : env D :=
  {| now := 1700000000000; exchange := fun _ => Fulfilled body |}.

(** An exchange that rejects every call with status 418. *)
Definition teapot {D : Type} : env D :=
  {| now := 1700000000000;
     exchange := fun _ =>
       Rejected {| message := "Request failed with status code 418";
                   response := Some {| response_status := 418;
                                       response_data :=
                                         JObj [("msg", JStr "rate limited by exchange")] |} |} |}.

(** An exchange that cannot be reached: no response at all. *)
Definition unreachable {D : Type} : env D :=
  {| now := 1700000000000;
     exchange := fun _ =>
       Rejected {| message := "connect ETIMEDOUT"; response := None |} |}.

(** An exchange that rejects every call with status 502 and the body [null]. *)
Definition null_gateway {D : Type} : env D :=
  {| now := 1700000000000;
     exchange := fun _ =>
       Rejected {| message := "Request failed with status code 502";
                   response := Some {| response_status := 502;
                                       response_data := JNull |} |} |}.

End Samples.

(* ===================================================================== *)
(** * Properties *)
(* ===================================================================== *)

Import Js Relay Spec Samples.

Arguments createBinanceSignature : simpl never.
Arguments parseFloat_positive : simpl never.

(** Case analysis on the exchange's answer to the call in the goal. *)
Ltac destruct_exchange :=
  match goal with
  | |- context [@exchange ?D ?w ?c] =>
      let data := fresh "data" in
      let error := fresh "error" in
      destruct (@exchange D w c) as [data|error] eqn:?
  end.

(** Unfolding of the routes that take no credentials. *)
Ltac run_public :=
  unfold run, handler, get_root, get_ping, get_price, get_prices,
    get_exchangeInfo, get_klines, get_ticker_24hr, try_catch, catch_500,
    mbind, io_bind, axios_get, res_json, emit.

(** ** The crypto model *)

Lemma be32_range x : Forall (fun b => 0 <= b < 256) (Crypto.be32 x).
Proof.
  unfold Crypto.be32.
  repeat (apply Forall_cons; split; [apply Z.mod_pos_bound; lia|]).
  apply Forall_nil_2.
Qed.

Lemma digest_bytes_range r : Forall (fun b => 0 <= b < 256) (Crypto.digest_bytes r).
Proof.
  unfold Crypto.digest_bytes.
  rewrite !Forall_app. repeat split; apply be32_range.
Qed.

Lemma digest_bytes_length r : length (Crypto.digest_bytes r) = 32%nat.
Proof. destruct r. reflexivity. Qed.

Lemma sha256_length msg : length (Crypto.sha256 msg) = 32%nat.
Proof. unfold Crypto.sha256. apply digest_bytes_length. Qed.

Lemma sha256_range msg : Forall (fun b => 0 <= b < 256) (Crypto.sha256 msg).
Proof. unfold Crypto.sha256. apply digest_bytes_range. Qed.

Lemma string_of_list_ascii_length cs :
  String.length (string_of_list_ascii cs) = length cs.
Proof. induction cs as [|c cs IH]; simpl; [reflexivity | now rewrite IH]. Qed.

Lemma hex_of_bytes_length bs :
  String.length (Crypto.hex_of_bytes bs) = (2 * length bs)%nat.
Proof.
  unfold Crypto.hex_of_bytes. rewrite string_of_list_ascii_length.
  induction bs as [|b bs IH]; simpl; [reflexivity | rewrite IH; lia].
Qed.

Lemma hex_digit_lower d :
  0 <= d < 16 ->
  Crypto.hex_digit d ∈ list_ascii_of_string "0123456789abcdef".
Proof.
  intros Hd. unfold Crypto.hex_digit.
  apply list_elem_of_In, nth_In. simpl. lia.
Qed.

Lemma hex_of_bytes_lower bs :
  Forall (fun b => 0 <= b < 256) bs -> lower_hex (Crypto.hex_of_bytes bs).
Proof.
  unfold lower_hex, Crypto.hex_of_bytes.
  rewrite list_ascii_of_string_of_list_ascii.
  induction 1 as [|b bs Hb _ IH]; simpl.
  - apply Forall_nil_2.
  - repeat (apply Forall_cons; split); [| |exact IH];
      apply hex_digit_lower.
    + split; [apply Z.div_pos; lia | apply Z.div_lt_upper_bound; lia].
    + apply Z.mod_pos_bound; lia.
Qed.

Lemma digest_hex_is_digest h : is_digest (Crypto.digest_hex h).
Proof.
  unfold Crypto.digest_hex, Crypto.hmac_sha256. split.
  - rewrite hex_of_bytes_length, sha256_length. reflexivity.
  - apply hex_of_bytes_lower, sha256_range.
Qed.

(** Known answers: the model agrees with SHA-256 and HMAC-SHA256 on
    published vectors, including the signing example of the exchange's
    documentation. *)
Example sha256_abc :
  Crypto.hex_of_bytes (Crypto.sha256 (Crypto.bytes_of_string "abc"))
  = "ba7816bf8f01cfea414140de5dae2223b00361a396177a9cb410ff61f20015ad".
Proof. vm_compute. reflexivity. Qed.

Example sha256_two_blocks :
  Crypto.hex_of_bytes
    (Crypto.sha256 (Crypto.bytes_of_string
       "aaaaaaaaaaaaaaaaaaaaaaaaaaaaaaaaaaaaaaaaaaaaaaaaaaaaaaaa"))
  = "b35439a4ac6f0948b6d6f9e3c6af0f5f590ce20f1bde7090ef7970686ec6738a".
Proof. vm_compute. reflexivity. Qed.

Example signature_documented_example :
  createBinanceSignature
    "NhqPtmdSJYdKjVHjA7PZj4Mge3R5YNiP1e3UZjInClVN65XAbvqqM6A7H5fATj0j"
    [("symbol", VStr "LTCBTC"); ("side", VStr "BUY"); ("type", VStr "LIMIT");
     ("timeInForce", VStr "GTC"); ("quantity", VNum 1); ("price", VStr "0.1");
     ("recvWindow", VNum 5000); ("timestamp", VNum 1499827319559)]
  = "c8db56825ae71d6d79447849e617115f4a920fa2acdcab2b053c4b2838bd6b71".
Proof. vm_compute. reflexivity. Qed.

Example signature_long_key :
  createBinanceSignature
    "kkkkkkkkkkkkkkkkkkkkkkkkkkkkkkkkkkkkkkkkkkkkkkkkkkkkkkkkkkkkkkkkkkkkkk"
    [("timestamp", VNum 1700000000000); ("symbol", VStr "BTCUSDT")]
  = "86b34a3cf5751a6dfb64fb09281e2481c506b9bfc1feacf79d886d5cf4952365".
Proof. vm_compute. reflexivity. Qed.

(** ** Strings *)

Lemma string_app_cons (c : ascii) (s t : string) :
  String c s +:+ t = String c (s +:+ t).
Proof. reflexivity. Qed.

Lemma string_app_nil_r (s : string) : s +:+ "" = s.
Proof.
  induction s as [|c s IH]; [reflexivity|].
  now rewrite string_app_cons, IH.
Qed.

Lemma string_app_assoc (a b c : string) : (a +:+ b) +:+ c = a +:+ (b +:+ c).
Proof.
  induction a as [|x a IH]; [reflexivity|].
  now rewrite !string_app_cons, IH.
Qed.

(** ** The signature helper *)

Lemma queryString_canonical (P : object value) : queryString P = canonical P.
Proof.
  unfold queryString, entries.
  induction P as [|[k v] rest IH]; [reflexivity|].
  destruct rest as [|e rest'].
  - simpl. now rewrite string_app_nil_r.
  - change (canonical ((k, v) :: e :: rest'))
      with (k +:+ "=" +:+ to_string v +:+ "&" +:+ canonical (e :: rest')).
    rewrite <- IH. cbn [map join]. now rewrite !string_app_assoc.
Qed.

Lemma signature_is_digest (S : string) (P : object value) :
  is_digest (createBinanceSignature S P).
Proof. unfold createBinanceSignature. apply digest_hex_is_digest. Qed.

Lemma bytes_of_string_app (a b : string) :
  Crypto.bytes_of_string (a +:+ b)
  = Crypto.bytes_of_string a ++ Crypto.bytes_of_string b.
Proof.
  unfold Crypto.bytes_of_string.
  induction a as [|c a IH]; [reflexivity|].
  rewrite string_app_cons. cbn [list_ascii_of_string map app]. now rewrite IH.
Qed.

Lemma canonical_bytes_verbatim (P : object value) :
  Crypto.bytes_of_string (canonical P) = canonical_bytes P.
Proof.
  induction P as [|[k v] rest IH]; [reflexivity|].
  cbn [canonical canonical_bytes]. rewrite !bytes_of_string_app.
  destruct rest as [|e rest']; [reflexivity|].
  rewrite bytes_of_string_app, IH. reflexivity.
Qed.

(** The message that is hashed: the signature is the lowercase hexadecimal
    HMAC-SHA256, keyed by the raw bytes of the secret, of the canonical
    string of the entries as [Object.entries] lists them. *)
Lemma signature_is_hmac (S : string) (P : object value) :
  createBinanceSignature S P
  = Crypto.hex_of_bytes
      (Crypto.hmac_sha256 (Crypto.bytes_of_string S)
                          (Crypto.bytes_of_string (canonical P))).
Proof.
  unfold createBinanceSignature, Crypto.digest_hex, Crypto.update,
    Crypto.createHmac_sha256.
  cbn [Crypto.hmac_key Crypto.hmac_data app].
  now rewrite queryString_canonical.
Qed.

(** Numbers in a template literal: all digits up to [2^53], the shortest
    digits that read back as the same double above, exponent notation from
    [1e21] on. *)
Example numbers_in_template_literals :
  map (fun n => to_string (VNum n))
      [0; 1700000000000; -42; 2 ^ 53; 2 ^ 53 + 1; 2 ^ 64;
       10 ^ 21 - 1; 10 ^ 21; 2 ^ 70; 2 ^ 1024]
  = ["0"; "1700000000000"; "-42"; "9007199254740992"; "9007199254740992";
     "18446744073709552000"; "1e+21"; "1e+21"; "1.1805916207174113e+21";
     "Infinity"].
Proof. vm_compute. reflexivity. Qed.

(** The canonical string of the specification's shape, on an example with
    characters a URL encoder would escape. *)
Example canonical_keeps_raw_values :
  queryString [("timestamp", VNum 1700000000000); ("symbol", VStr "BTC USDT&x=/é")]
  = "timestamp=1700000000000&symbol=BTC USDT&x=/é".
Proof. vm_compute. reflexivity. Qed.

(** C2 (as stated, refuted).  The helper has no validation step: with an
    empty secret, an empty parameter set, or both, it returns a digest. *)
Lemma sign_accepts_empty_inputs :
  createBinanceSignature "" []
  = "b613679a0814d9ec772f95d778c35fc5ff1697c493715653c6c712144292c5ad"
  /\ createBinanceSignature "" [("timestamp", VNum 1700000000000)]
     = "19bd37280a58c0adc2db9cf3640abe5dab0bedf99411be4d5ec694ba1549333c"
  /\ is_digest (createBinanceSignature "" [])
  /\ is_digest (createBinanceSignature "" [("timestamp", VNum 1700000000000)])
  /\ is_digest (createBinanceSignature "s3cr3t" []).
Proof.
  split; [vm_compute; reflexivity|].
  split; [vm_compute; reflexivity|].
  repeat split; apply signature_is_digest.
Qed.

(** ** Order sensitivity of the canonical string *)

Lemma key_prefix_unique (k1 k2 r1 r2 : string) :
  no_equals k1 -> no_equals k2 ->
  k1 +:+ "=" +:+ r1 = k2 +:+ "=" +:+ r2 ->
  k1 = k2 /\ r1 = r2.
Proof.
  revert k2. induction k1 as [|a k1 IH]; intros [|b k2] H1 H2 E.
  - injection E as E. now split.
  - rewrite string_app_cons in E. injection E as Eb _.
    destruct H2 as [Hb _]. now elim Hb.
  - rewrite string_app_cons in E. injection E as Ea _.
    destruct H1 as [Ha _]. now elim Ha.
  - rewrite !string_app_cons in E. injection E as Eab E.
    destruct H1 as [_ H1], H2 as [_ H2].
    destruct (IH k2 H1 H2 E) as [-> ->]. now subst.
Qed.

Lemma canonical_cons (k : string) (v : value) (rest : object value) :
  canonical ((k, v) :: rest)
  = k +:+ "=" +:+ (to_string v +:+
      match rest with [] => "" | _ :: _ => "&" +:+ canonical rest end).
Proof. reflexivity. Qed.

Lemma canonical_perm_inj (P Q : object value) :
  NoDup P.*1 -> Forall no_equals P.*1 -> P ≡ₚ Q ->
  canonical P = canonical Q -> P = Q.
Proof.
  revert Q. induction P as [|[k v] P IH]; intros Q Hnd Hkeys Hperm E.
  - now apply Permutation_nil in Hperm.
  - destruct Q as [|[k' v'] Q].
    { symmetry in Hperm. now apply Permutation_nil in Hperm. }
    assert (Hin : (k', v') ∈ (k, v) :: P).
    { rewrite Hperm. apply list_elem_of_here. }
    rewrite fmap_cons in Hnd, Hkeys. cbn [fst] in Hnd, Hkeys.
    apply NoDup_cons in Hnd as [Hk Hnd].
    apply Forall_cons in Hkeys as [Hkeq Hkeys].
    assert (Hk' : no_equals k').
    { apply elem_of_cons in Hin as [Heq | Hin].
      - now injection Heq as -> _.
      - rewrite Forall_forall in Hkeys. apply Hkeys.
        apply list_elem_of_fmap. now exists (k', v'). }
    rewrite !canonical_cons in E.
    destruct (key_prefix_unique _ _ _ _ Hkeq Hk' E) as [<- E'].
    assert (v' = v) as ->.
    { apply elem_of_cons in Hin as [Heq | Hin].
      - now injection Heq.
      - elim Hk. apply list_elem_of_fmap. now exists (k, v'). }
    apply Permutation_cons_inv in Hperm.
    apply String.app_inj in E'.
    f_equal. apply IH; try assumption.
    destruct P as [|p P], Q as [|q Q]; try reflexivity.
    + now apply Permutation_nil in Hperm.
    + symmetry in Hperm. now apply Permutation_nil in Hperm.
    + now apply (String.app_inj "&") in E'.
Qed.

(** C9 (as stated, refuted).  Values and keys are written without any
    encoding, so a key that contains [=] can be mistaken for a key and a
    value: these two parameter sets hold the same two entries in opposite
    orders, have distinct keys, and share one canonical string and hence
    one signature under every secret. *)
Lemma reordering_can_keep_canonical_string :
  let P := [("a", VStr "1"); ("a=1&a", VStr "1")] in
  let Q := [("a=1&a", VStr "1"); ("a", VStr "1")] in
  NoDup P.*1 /\ P ≡ₚ Q /\ P <> Q
  /\ queryString P = "a=1&a=1&a=1" /\ queryString Q = "a=1&a=1&a=1"
  /\ forall S, createBinanceSignature S P = createBinanceSignature S Q.
Proof.
  cbv zeta. split; [|split; [|split; [|split; [|split]]]].
  - apply (bool_decide_unpack _). vm_compute. reflexivity.
  - apply perm_swap.
  - discriminate.
  - vm_compute. reflexivity.
  - vm_compute. reflexivity.
  - intros S. unfold createBinanceSignature. f_equal.
Qed.

(** C9 (amended).  For parameter sets with distinct keys none of which
    contains [=] (as all keys the handlers use), two different orders of
    the same entries always give different canonical strings. *)
Theorem canonical_string_order_sensitive (P Q : object value) :
  NoDup P.*1 -> Forall no_equals P.*1 -> P ≡ₚ Q -> P <> Q ->
  queryString P <> queryString Q.
Proof.
  intros Hnd Hkeys Hperm Hne E. apply Hne.
  rewrite !queryString_canonical in E.
  now apply canonical_perm_inj.
Qed.

Lemma canonical_string_order_sensitive_witness :
  queryString [("timestamp", VNum 1700000000000); ("symbol", VStr "BTCUSDT")]
  <> queryString [("symbol", VStr "BTCUSDT"); ("timestamp", VNum 1700000000000)].
Proof.
  apply canonical_string_order_sensitive.
  - apply (bool_decide_unpack _). vm_compute. reflexivity.
  - repeat (apply Forall_cons; split); try apply Forall_nil_2;
      simpl; repeat split; discriminate.
  - apply perm_swap.
  - discriminate.
Defined.

(** ** Objects *)

Lemma has_key_elem {V : Type} (k : string) (o : object V) :
  has_key k o = true <-> k ∈ o.*1.
Proof.
  induction o as [|[k' v'] o IH]; cbn [has_key existsb fst].
  - rewrite fmap_nil, elem_of_nil. split; [discriminate | tauto].
  - rewrite fmap_cons, elem_of_cons, orb_true_iff. cbn [fst].
    fold (has_key k o). rewrite IH.
    destruct (String.eqb_spec k' k) as [->|Hne]; [split; intros _; now left|].
    split; intros [H|H]; try discriminate; try (now right).
    now elim Hne.
Qed.

Lemma has_key_fresh {V : Type} (k : string) (o : object V) :
  k ∉ o.*1 -> has_key k o = false.
Proof.
  intros Hk. destruct (has_key k o) eqn:E; [|reflexivity].
  now apply has_key_elem in E.
Qed.

Lemma overwrite_keys {V : Type} (k : string) (v : V) (o : object V) :
  (overwrite k v o).*1 = o.*1.
Proof.
  induction o as [|[k' v'] o IH]; [reflexivity|]. cbn [overwrite].
  destruct (String.eqb_spec k' k) as [->|Hne]; rewrite !fmap_cons; cbn [fst];
    [reflexivity | now rewrite IH].
Qed.

Lemma insert_index_perm {V : Type} (k : string) (v : V) (o : object V) :
  insert_index k v o ≡ₚ (k, v) :: o.
Proof.
  induction o as [|[k' v'] o IH]; [reflexivity|]. cbn [insert_index].
  destruct (is_array_index k' && (index_value k' <? index_value k));
    [|reflexivity].
  rewrite IH. apply perm_swap.
Qed.

Lemma define_keys {V : Type} (k : string) (v : V) (o : object V) (x : string) :
  x ∈ (define k v o).*1 <-> x = k \/ x ∈ o.*1.
Proof.
  unfold define. destruct (has_key k o) eqn:Hk.
  - rewrite overwrite_keys. apply has_key_elem in Hk.
    split; [tauto | intros [->|H]; assumption].
  - destruct (is_array_index k).
    + rewrite insert_index_perm, fmap_cons, elem_of_cons. reflexivity.
    + rewrite fmap_app, elem_of_app, fmap_cons, list_elem_of_singleton.
      cbn [fst]. tauto.
Qed.

Lemma define_fresh {V : Type} (k : string) (v : V) (o : object V) :
  k ∉ o.*1 -> is_array_index k = false -> define k v o = o ++ [(k, v)].
Proof.
  intros Hk Hi. unfold define. now rewrite has_key_fresh, Hi.
Qed.

Lemma define_NoDup {V : Type} (k : string) (v : V) (o : object V) :
  NoDup o.*1 -> NoDup (define k v o).*1.
Proof.
  intros Hnd. unfold define. destruct (has_key k o) eqn:Hk.
  - now rewrite overwrite_keys.
  - assert (Hfresh : k ∉ o.*1).
    { intros Hin. apply has_key_elem in Hin. congruence. }
    assert (Hcons : NoDup ((k, v) :: o).*1).
    { rewrite fmap_cons. now apply NoDup_cons. }
    destruct (is_array_index k).
    + now rewrite insert_index_perm.
    + assert (Hp : o ++ [(k, v)] ≡ₚ (k, v) :: o)
        by (symmetry; apply Permutation_cons_append).
      now rewrite Hp.
Qed.

Lemma get_overwrite_same {V : Type} (k : string) (v : V) (o : object V) :
  k ∈ o.*1 -> get k (overwrite k v o) = Some v.
Proof.
  induction o as [|[k' v'] o IH]; intros Hk.
  - now apply elem_of_nil in Hk.
  - cbn [overwrite]. destruct (String.eqb_spec k' k) as [->|Hne]; cbn [get].
    + now rewrite String.eqb_refl.
    + destruct (String.eqb_spec k' k); [contradiction|].
      apply IH. rewrite fmap_cons, elem_of_cons in Hk.
      destruct Hk as [Hk|Hk]; [now elim Hne | exact Hk].
Qed.

Lemma get_overwrite_other {V : Type} (k k0 : string) (v : V) (o : object V) :
  k0 <> k -> get k0 (overwrite k v o) = get k0 o.
Proof.
  intros Hne. induction o as [|[k' v'] o IH]; [reflexivity|].
  cbn [overwrite get]. destruct (String.eqb_spec k' k) as [->|Hk]; cbn [get].
  - destruct (String.eqb_spec k k0); [congruence | reflexivity].
  - now rewrite IH.
Qed.

Lemma get_fresh {V : Type} (k : string) (o : object V) :
  k ∉ o.*1 -> get k o = None.
Proof.
  induction o as [|[k' v'] o IH]; [reflexivity|].
  rewrite fmap_cons, not_elem_of_cons. cbn [fst get]. intros [Hne Hk].
  destruct (String.eqb_spec k' k); [congruence | now apply IH].
Qed.

Lemma get_insert_index_same {V : Type} (k : string) (v : V) (o : object V) :
  k ∉ o.*1 -> get k (insert_index k v o) = Some v.
Proof.
  induction o as [|[k' v'] o IH]; intros Hk; cbn [insert_index].
  - cbn [get]. now rewrite String.eqb_refl.
  - rewrite fmap_cons, not_elem_of_cons in Hk. cbn [fst] in Hk.
    destruct Hk as [Hne Hk].
    destruct (is_array_index k' && (index_value k' <? index_value k)); cbn [get].
    + destruct (String.eqb_spec k' k); [congruence | now apply IH].
    + now rewrite String.eqb_refl.
Qed.

Lemma get_insert_index_other {V : Type} (k k0 : string) (v : V) (o : object V) :
  k0 <> k -> get k0 (insert_index k v o) = get k0 o.
Proof.
  intros Hne. induction o as [|[k' v'] o IH]; cbn [insert_index get].
  - destruct (String.eqb_spec k k0); [congruence | reflexivity].
  - destruct (is_array_index k' && (index_value k' <? index_value k)); cbn [get].
    + now rewrite IH.
    + destruct (String.eqb_spec k k0); [congruence | reflexivity].
Qed.

Lemma get_app_fresh {V : Type} (k : string) (o o' : object V) :
  k ∉ o.*1 -> get k (o ++ o') = get k o'.
Proof.
  induction o as [|[k' v'] o IH]; [reflexivity|].
  rewrite fmap_cons, not_elem_of_cons. cbn [fst]. intros [Hne Hk].
  cbn [app get]. destruct (String.eqb_spec k' k); [congruence | now apply IH].
Qed.

Lemma get_app_other {V : Type} (k k0 : string) (v : V) (o : object V) :
  k0 <> k -> get k0 (o ++ [(k, v)]) = get k0 o.
Proof.
  intros Hne. induction o as [|[k' v'] o IH]; cbn [app get].
  - destruct (String.eqb_spec k k0); [congruence | reflexivity].
  - now rewrite IH.
Qed.

Lemma get_define_same {V : Type} (k : string) (v : V) (o : object V) :
  get k (define k v o) = Some v.
Proof.
  unfold define. destruct (has_key k o) eqn:Hk.
  - apply get_overwrite_same. now apply has_key_elem.
  - assert (Hfresh : k ∉ o.*1).
    { intros Hin. apply has_key_elem in Hin. congruence. }
    destruct (is_array_index k).
    + now apply get_insert_index_same.
    + rewrite get_app_fresh by exact Hfresh. cbn [get].
      now rewrite String.eqb_refl.
Qed.

Lemma get_define_other {V : Type} (k k0 : string) (v : V) (o : object V) :
  k0 <> k -> get k0 (define k v o) = get k0 o.
Proof.
  intros Hne. unfold define. destruct (has_key k o).
  - now apply get_overwrite_other.
  - destruct (is_array_index k).
    + now apply get_insert_index_other.
    + now apply get_app_other.
Qed.

Lemma overwrite_elem {V : Type} (k : string) (v : V) (o : object V)
    (x : string * V) :
  x ∈ overwrite k v o -> x = (k, v) \/ x ∈ o.
Proof.
  induction o as [|[k' v'] o IH]; cbn [overwrite]; [now right|].
  destruct (String.eqb_spec k' k) as [->|Hne]; rewrite !elem_of_cons.
  - tauto.
  - intros [->|Hx]; [tauto|]. destruct (IH Hx); tauto.
Qed.

Lemma define_elem {V : Type} (k : string) (v : V) (o : object V)
    (x : string * V) :
  x ∈ define k v o -> x = (k, v) \/ x ∈ o.
Proof.
  unfold define. destruct (has_key k o); [apply overwrite_elem|].
  destruct (is_array_index k).
  - rewrite insert_index_perm, elem_of_cons. tauto.
  - rewrite elem_of_app, list_elem_of_singleton. tauto.
Qed.

Lemma set_fresh {V : Type} (k : string) (v : V) (o : object V) :
  k ∉ o.*1 -> is_array_index k = false -> k <> "__proto__" ->
  set k v o = o ++ [(k, v)].
Proof.
  intros Hk Hi Hp. unfold set.
  destruct (String.eqb_spec k "__proto__"); [contradiction|].
  now apply define_fresh.
Qed.

Lemma set_keys {V : Type} (k : string) (v : V) (o : object V) (x : string) :
  x ∈ (set k v o).*1 <-> (x = k /\ k <> "__proto__") \/ x ∈ o.*1.
Proof.
  unfold set. destruct (String.eqb_spec k "__proto__") as [->|Hp].
  - split; [now right | intros [[_ H]|H]; [now elim H | exact H]].
  - rewrite define_keys. tauto.
Qed.

Lemma get_set_same {V : Type} (k : string) (v : V) (o : object V) :
  k <> "__proto__" -> get k (set k v o) = Some v.
Proof.
  intros Hp. unfold set.
  destruct (String.eqb_spec k "__proto__"); [contradiction|].
  apply get_define_same.
Qed.

Lemma get_set_other {V : Type} (k k0 : string) (v : V) (o : object V) :
  k0 <> k -> get k0 (set k v o) = get k0 o.
Proof.
  intros Hne. unfold set.
  destruct (String.eqb k "__proto__"); [reflexivity|].
  now apply get_define_other.
Qed.

Lemma set_NoDup {V : Type} (k : string) (v : V) (o : object V) :
  NoDup o.*1 -> NoDup (set k v o).*1.
Proof.
  intros Hnd. unfold set.
  destruct (String.eqb k "__proto__"); [exact Hnd | now apply define_NoDup].
Qed.

Lemma set_elem {V : Type} (k : string) (v : V) (o : object V) (x : string * V) :
  x ∈ set k v o -> x = (k, v) \/ x ∈ o.
Proof.
  unfold set. destruct (String.eqb k "__proto__"); [now right|].
  apply define_elem.
Qed.

(** ** The order of enumeration *)

Lemma key_before_other (x k : string) : is_array_index k = false -> key_before x k.
Proof. unfold key_before. intros ->. now destruct (is_array_index x). Qed.

Lemma ordered_app_other (ks : list string) (k : string) :
  enumeration_ordered ks -> is_array_index k = false ->
  enumeration_ordered (ks ++ [k]).
Proof.
  intros Hks Hk. induction Hks as [|x ks Hx _ IH]; cbn [app].
  - constructor; constructor.
  - constructor; [|exact IH]. apply Forall_app. split; [exact Hx|].
    apply Forall_singleton. now apply key_before_other.
Qed.

Lemma insert_index_ordered {V : Type} (k : string) (v : V) (o : object V) :
  is_array_index k = true -> enumeration_ordered o.*1 ->
  enumeration_ordered (insert_index k v o).*1.
Proof.
  intros Hk. induction o as [|[k' v'] o IH]; intros Ho; cbn [insert_index].
  - rewrite fmap_cons. constructor; constructor.
  - rewrite fmap_cons in Ho. cbn [fst] in Ho.
    inversion Ho as [|? ? Hk' Ho']; subst.
    destruct (is_array_index k') eqn:Hi; cbn [andb].
    + destruct (Z.ltb_spec (index_value k') (index_value k)) as [Hlt|Hge].
      * rewrite fmap_cons. cbn [fst]. constructor; [|now apply IH].
        apply Forall_forall. intros x Hx.
        rewrite insert_index_perm, fmap_cons, elem_of_cons in Hx.
        cbn [fst] in Hx. destruct Hx as [->|Hx].
        -- unfold key_before. rewrite Hi, Hk. lia.
        -- rewrite Forall_forall in Hk'. now apply Hk'.
      * rewrite !fmap_cons. cbn [fst]. constructor; [|exact Ho].
        apply Forall_cons. split.
        -- unfold key_before. rewrite Hk, Hi. exact Hge.
        -- apply Forall_forall. intros x Hx.
           rewrite Forall_forall in Hk'. specialize (Hk' x Hx).
           unfold key_before in Hk' |- *. rewrite Hi in Hk'. rewrite Hk.
           destruct (is_array_index x); [lia | exact I].
    + rewrite !fmap_cons. cbn [fst]. constructor; [|exact Ho].
      apply Forall_cons. split.
      * unfold key_before. now rewrite Hk, Hi.
      * apply Forall_forall. intros x Hx.
        rewrite Forall_forall in Hk'. specialize (Hk' x Hx).
        unfold key_before in Hk' |- *. rewrite Hi in Hk'. now rewrite Hk, Hk'.
Qed.

Lemma define_ordered {V : Type} (k : string) (v : V) (o : object V) :
  enumeration_ordered o.*1 -> enumeration_ordered (define k v o).*1.
Proof.
  intros Ho. unfold define. destruct (has_key k o).
  - now rewrite overwrite_keys.
  - destruct (is_array_index k) eqn:Hk.
    + now apply insert_index_ordered.
    + rewrite fmap_app. now apply ordered_app_other.
Qed.

Lemma set_ordered {V : Type} (k : string) (v : V) (o : object V) :
  enumeration_ordered o.*1 -> enumeration_ordered (set k v o).*1.
Proof.
  intros Ho. unfold set.
  destruct (String.eqb k "__proto__"); [exact Ho | now apply define_ordered].
Qed.

(** ** Objects filled by successive assignments *)

Lemma fold_set_NoDup {V : Type} (ins : list (string * V)) (acc : object V) :
  NoDup acc.*1 ->
  NoDup (fold_left (fun o kv => set (fst kv) (snd kv) o) ins acc).*1.
Proof.
  revert acc. induction ins as [|kv ins IH]; intros acc Hacc; cbn [fold_left].
  - exact Hacc.
  - apply IH, set_NoDup, Hacc.
Qed.

Lemma fold_set_ordered {V : Type} (ins : list (string * V)) (acc : object V) :
  enumeration_ordered acc.*1 ->
  enumeration_ordered (fold_left (fun o kv => set (fst kv) (snd kv) o) ins acc).*1.
Proof.
  revert acc. induction ins as [|kv ins IH]; intros acc Hacc; cbn [fold_left].
  - exact Hacc.
  - apply IH, set_ordered, Hacc.
Qed.

Lemma fold_set_keys {V : Type} (ins : list (string * V)) (acc : object V) (s : string) :
  s ∈ (fold_left (fun o kv => set (fst kv) (snd kv) o) ins acc).*1
  <-> s ∈ acc.*1 \/ (s ∈ ins.*1 /\ s <> "__proto__").
Proof.
  revert acc. induction ins as [|kv ins IH]; intros acc; cbn [fold_left].
  - rewrite fmap_nil, elem_of_nil. tauto.
  - rewrite IH, set_keys, fmap_cons, elem_of_cons. split.
    + intros [[[-> Hp]|H]|[H Hp]]; auto.
    + intros [H|[[->|H] Hp]]; auto.
Qed.

Lemma fold_set_get_kept {V : Type} (ins : list (string * V)) (acc : object V)
    (s : string) :
  s ∉ ins.*1 ->
  get s (fold_left (fun o kv => set (fst kv) (snd kv) o) ins acc) = get s acc.
Proof.
  revert acc. induction ins as [|kv ins IH]; intros acc Hs; cbn [fold_left].
  - reflexivity.
  - rewrite fmap_cons, not_elem_of_cons in Hs. destruct Hs as [Hne Hs].
    rewrite IH by exact Hs. now apply get_set_other.
Qed.

Lemma fold_set_distinct {V : Type} (ins : list (string * V)) (acc : object V) :
  NoDup (acc.*1 ++ ins.*1) -> Forall ordinary_name ins.*1 ->
  fold_left (fun o kv => set (fst kv) (snd kv) o) ins acc = acc ++ ins.
Proof.
  revert acc. induction ins as [|[k v] ins IH]; intros acc Hnd Hnames;
    cbn [fold_left fst snd].
  - now rewrite app_nil_r.
  - rewrite fmap_cons in Hnd, Hnames. cbn [fst] in Hnd, Hnames.
    apply Forall_cons in Hnames as [[Hi Hp] Hnames].
    apply NoDup_app in Hnd as (Hacc & Hdisj & Hins).
    apply NoDup_cons in Hins as [Hk Hins].
    rewrite set_fresh; [|intros Hin; apply (Hdisj _ Hin), list_elem_of_here|exact Hi|exact Hp].
    rewrite IH; [now rewrite <- app_assoc| |exact Hnames].
    rewrite fmap_app, fmap_cons, fmap_nil. cbn [fst].
    apply NoDup_app. split; [|split; [|exact Hins]].
    + apply NoDup_app. split; [exact Hacc|]. split; [|apply NoDup_singleton].
      intros x Hx Hx'. apply list_elem_of_singleton in Hx' as ->.
      apply (Hdisj _ Hx), list_elem_of_here.
    + intros x Hx Hx'. apply elem_of_app in Hx as [Hx|Hx].
      * apply (Hdisj _ Hx). now apply list_elem_of_further.
      * apply list_elem_of_singleton in Hx as ->. contradiction.
Qed.

Lemma of_insertions_last_wins {V : Type} (before after : list (string * V))
    (k : string) (v : V) :
  k ∉ after.*1 -> k <> "__proto__" ->
  get k (of_insertions (before ++ (k, v) :: after)) = Some v.
Proof.
  intros Hlast Hp. unfold of_insertions.
  rewrite fold_left_app. cbn [fold_left fst snd].
  rewrite fold_set_get_kept by exact Hlast.
  now apply get_set_same.
Qed.

(** A name with a character that is not a digit is no array index. *)
Lemma not_array_index (k : string) (c : ascii) :
  c ∈ list_ascii_of_string k -> is_digit c = false -> is_array_index k = false.
Proof.
  intros Hin Hc. unfold is_array_index.
  destruct (list_ascii_of_string k) as [|a rest]; [reflexivity|].
  assert (Hall : forallb is_digit (a :: rest) = false).
  { destruct (forallb is_digit (a :: rest)) eqn:E; [|reflexivity].
    rewrite forallb_forall in E. rewrite <- Hc. symmetry. apply E.
    now apply list_elem_of_In. }
  now rewrite Hall.
Qed.

Example array_indices :
  map is_array_index ["0"; "7"; "10"; "4294967294"; "4294967295"; "01"; "";
                      "1e3"; "-1"; "1.5"; "BTCUSDT"; "1INCHUSDT"; "__proto__"]
  = [true; true; true; true; false; false; false;
     false; false; false; false; false; false].
Proof. vm_compute. reflexivity. Qed.

(** ** The order in which parameters are signed *)

(** C1 (as stated, refuted).  The entries are not always signed in the
    order in which the caller inserted them: a key that is an array index
    is enumerated, and therefore signed, before the keys inserted earlier. *)
Lemma array_index_keys_are_signed_first :
  let ins := [("symbol", VStr "BTCUSDT"); ("2", VNum 3)] in
  NoDup ins.*1
  /\ queryString (of_insertions ins) = "2=3&symbol=BTCUSDT"
  /\ canonical ins = "symbol=BTCUSDT&2=3"
  /\ createBinanceSignature "s3cr3t" (of_insertions ins)
     <> Crypto.hex_of_bytes
          (Crypto.hmac_sha256 (Crypto.bytes_of_string "s3cr3t")
                              (Crypto.bytes_of_string (canonical ins))).
Proof.
  cbv zeta. split; [|split; [|split]].
  - apply (bool_decide_unpack _). vm_compute. reflexivity.
  - vm_compute. reflexivity.
  - vm_compute. reflexivity.
  - vm_compute. discriminate.
Qed.

(** C1 (amended).  For every secret [S] and parameter object [P], the
    signature is the lowercase hexadecimal rendering of HMAC-SHA256, keyed
    by the raw bytes of [S], of the canonical string [k1=v1&k2=v2&...] of
    the entries of [P] in the order of enumeration; keys and values enter
    the hashed message byte for byte, unencoded; the result is 64 lowercase
    hex digits.  In the object a caller fills by successive assignments,
    the array indices come first in ascending order and every name is
    bound to the value assigned last; when the names are pairwise distinct
    and none is an array index or [__proto__], the order of enumeration is
    the order of insertion, and the signed string is the canonical string
    of the insertions as supplied. *)
Theorem sign_is_hmac_of_canonical (S : string) :
  (forall P : object value,
     createBinanceSignature S P
     = Crypto.hex_of_bytes
         (Crypto.hmac_sha256 (Crypto.bytes_of_string S)
                             (Crypto.bytes_of_string (canonical P)))
     /\ Crypto.bytes_of_string (canonical P) = canonical_bytes P
     /\ is_digest (createBinanceSignature S P))
  /\ (forall ins : list (string * value),
        NoDup (of_insertions ins).*1
        /\ enumeration_ordered (of_insertions ins).*1
        /\ (forall k, k ∈ (of_insertions ins).*1
                      <-> k ∈ ins.*1 /\ k <> "__proto__")
        /\ (forall before k v after,
              ins = before ++ (k, v) :: after -> k ∉ after.*1 ->
              k <> "__proto__" ->
              get k (of_insertions ins) = Some v)
        /\ (NoDup ins.*1 -> Forall ordinary_name ins.*1 ->
            of_insertions ins = ins
            /\ createBinanceSignature S (of_insertions ins)
               = Crypto.hex_of_bytes
                   (Crypto.hmac_sha256 (Crypto.bytes_of_string S)
                                       (Crypto.bytes_of_string (canonical ins))))).
Proof.
  split.
  - intros P. split; [apply signature_is_hmac|].
    split; [apply canonical_bytes_verbatim | apply signature_is_digest].
  - intros ins.
    assert (Hplain : NoDup ins.*1 -> Forall ordinary_name ins.*1 ->
                     of_insertions ins = ins).
    { intros Hnd Hnames. unfold of_insertions.
      now rewrite fold_set_distinct by (rewrite ?fmap_nil; assumption). }
    split; [apply fold_set_NoDup, NoDup_nil_2|].
    split; [apply fold_set_ordered; constructor|].
    split; [|split].
    + intros k. unfold of_insertions.
      rewrite fold_set_keys, fmap_nil, elem_of_nil. tauto.
    + intros before k v after -> Hlast Hp. now apply of_insertions_last_wins.
    + intros Hnd Hnames. split; [now apply Hplain|].
      rewrite (Hplain Hnd Hnames). apply signature_is_hmac.
Qed.

Lemma sign_is_hmac_of_canonical_witness :
  let ins := [("timestamp", VNum 1700000000000); ("symbol", VStr "BTCUSDT")] in
  of_insertions ins = ins
  /\ createBinanceSignature "s3cr3t" (of_insertions ins)
     = Crypto.hex_of_bytes
         (Crypto.hmac_sha256 (Crypto.bytes_of_string "s3cr3t")
            (Crypto.bytes_of_string "timestamp=1700000000000&symbol=BTCUSDT")).
Proof.
  cbv zeta.
  destruct (sign_is_hmac_of_canonical "s3cr3t") as [_ Hins].
  destruct (Hins [("timestamp", VNum 1700000000000); ("symbol", VStr "BTCUSDT")])
    as (_ & _ & _ & _ & Hplain).
  apply Hplain.
  - apply (bool_decide_unpack _). vm_compute. reflexivity.
  - repeat (apply Forall_cons; split); try apply Forall_nil_2;
      (split; [vm_compute; reflexivity | discriminate]).
Defined.

(** ** The parameter sets of the account routes *)

Lemma set_if_present_keys k field (q : object value) x :
  x ∈ (set_if_present k field q).*1 -> x = k \/ x ∈ q.*1.
Proof.
  unfold set_if_present.
  destruct (truthy field); [rewrite set_keys; tauto | now right].
Qed.

Lemma set_if_present_get_other k k0 field (q : object value) :
  k0 <> k -> get k0 (set_if_present k field q) = get k0 q.
Proof.
  intros Hne. unfold set_if_present.
  destruct (truthy field); [now apply get_set_other | reflexivity].
Qed.

Lemma assembled_keys r timestamp query x :
  x ∈ (assembled r timestamp query).*1 ->
  x ∈ ["timestamp"; "symbol"; "limit"; "fromId"; "startTime"; "endTime"].
Proof.
  assert (Hacc : x ∈ (account_params timestamp).*1 ->
                 x ∈ ["timestamp"; "symbol"; "limit"; "fromId"; "startTime"; "endTime"]).
  { unfold account_params. rewrite fmap_cons. set_solver. }
  destruct r; try exact Hacc; clear Hacc;
    unfold assembled, openOrders_params, myTrades_params; intros Hx;
    repeat (apply set_if_present_keys in Hx as [->|Hx]; [set_solver|]);
    rewrite ?fmap_cons in Hx; set_solver.
Qed.

Lemma assembled_has_timestamp r timestamp query :
  get "timestamp" (assembled r timestamp query) = Some (VNum timestamp).
Proof.
  destruct r; try reflexivity;
    unfold assembled, openOrders_params, myTrades_params;
    rewrite ?set_if_present_get_other by discriminate; reflexivity.
Qed.

Lemma spread_signature r timestamp query v :
  spread_with (assembled r timestamp query) "signature" v
  = assembled r timestamp query ++ [("signature", v)].
Proof.
  unfold spread_with. apply define_fresh; [|reflexivity]. intros Hin.
  apply assembled_keys in Hin. set_solver.
Qed.

(** ** The handler monad *)

Lemma io_left_identity {D A B : Type} (a : A) (k : A -> io D B) (w : env D) :
  (mret a ≫= k) w = k a w.
Proof. unfold mbind, io_bind, mret, io_ret. now destruct (k a w). Qed.

Lemma io_right_identity {D A : Type} (m : io D A) (w : env D) :
  (m ≫= mret) w = m w.
Proof.
  unfold mbind, io_bind, mret, io_ret.
  destruct (m w) as [t [e|a]]; [reflexivity | now rewrite app_nil_r].
Qed.

Lemma io_bind_assoc {D A B C : Type}
    (m : io D A) (k : A -> io D B) (h : B -> io D C) (w : env D) :
  ((m ≫= k) ≫= h) w = (m ≫= (fun a => k a ≫= h)) w.
Proof.
  unfold mbind, io_bind.
  destruct (m w) as [t [e|a]]; [reflexivity|].
  destruct (k a w) as [t' [e|b]]; [reflexivity|].
  destruct (h b w) as [t'' r]. now rewrite app_assoc.
Qed.

Lemma try_catch_throw {D A : Type} (e : exn) (handler : exn -> io D A) (w : env D) :
  try_catch (throw e) handler w = handler e w.
Proof. unfold try_catch, throw. now destruct (handler e w). Qed.

Lemma try_catch_completes {D A : Type}
    (body : io D A) (handler : exn -> io D A) (w : env D) t a :
  body w = (t, inr a) -> try_catch body handler w = (t, inr a).
Proof. unfold try_catch. now intros ->. Qed.

(** Whatever an outbound call returns, it leaves exactly one request in
    the trace. *)
Lemma axios_get_trace {D : Type} u ps hs (w : env D) :
  (axios_get u ps hs w).1 = [Requested {| url := u; params := ps; headers := hs |}].
Proof. reflexivity. Qed.

(** ** Running the handlers *)

Lemma signed_get_run {D : Type} r key secret timestamp query (w : env D) :
  signed_get (upstream_path r) key secret (assembled r timestamp query) w
  = ([Signed (str secret) (assembled r timestamp query);
      Requested (signed_request r (str key) (str secret) timestamp query)],
     match exchange w (signed_request r (str key) (str secret) timestamp query) with
     | Fulfilled data => inr data
     | Rejected error => inl (AxiosError error)
     end).
Proof.
  unfold signed_get, signed_request, mbind, io_bind, sign, axios_get.
  cbv zeta. rewrite spread_signature.
  destruct (exchange w _); reflexivity.
Qed.

Lemma catch_account_trace {D : Type} label error (w : env D) :
  exists tail, (catch_account label error w).1 = tail
     /\ requests tail = [] /\ signatures tail = [] /\ (length tail <= 1)%nat.
Proof.
  unfold catch_account.
  destruct (error_response_of error) as [r|]; [destruct (prop "msg" (response_data r))|];
    eexists; (split; [reflexivity|]); cbn; auto.
Qed.

Lemma account_route_trace r req (w : env (body_of r)) :
  account_scoped r = true ->
  if negb (truthy (api_key req)) || negb (truthy (api_secret req)) then
    run (handler r req) w = [Replied 400 missing_credentials]
  else
    (r = MyTrades /\ truthy (req_query req !! "symbol") = false
     /\ exists body, run (handler r req) w = [Replied 400 body])
    \/ ((r = MyTrades -> truthy (req_query req !! "symbol") = true)
        /\ exists tail,
          run (handler r req) w
          = Signed (str (api_secret req)) (assembled r (now w) (req_query req))
              :: Requested (signed_request r (str (api_key req)) (str (api_secret req))
                                           (now w) (req_query req))
              :: tail
          /\ requests tail = [] /\ signatures tail = [] /\ (length tail <= 1)%nat).
Proof.
  intros Hr. unfold api_key, api_secret.
  destruct r; try discriminate Hr; clear Hr; cbn [body_of] in w;
    unfold run, handler, get_balances, get_account, get_openOrders, get_myTrades,
      try_catch;
    (destruct (negb _ || negb _); [reflexivity|]).
  4: destruct (truthy (req_query req !! "symbol")) eqn:Hsym; cbn [negb];
       [|left; repeat split; eexists; reflexivity].
  all: right; (split; [discriminate || reflexivity|]); unfold mbind, io_bind, date_now.
  all: match goal with
       | |- context [signed_get ?p _ _ (account_params _)] =>
           change (account_params (now w)) with (assembled Account (now w) (req_query req));
           change p with (upstream_path Account)
       | |- context [signed_get ?p _ _ (openOrders_params _ _)] =>
           change (openOrders_params (now w) (req_query req))
             with (assembled OpenOrders (now w) (req_query req));
           change p with (upstream_path OpenOrders)
       | |- context [signed_get ?p _ _ (myTrades_params _ _)] =>
           change (myTrades_params (now w) (req_query req))
             with (assembled MyTrades (now w) (req_query req));
           change p with (upstream_path MyTrades)
       end.
  all: rewrite signed_get_run.
  all: destruct_exchange; cbn.
  all: try match goal with
       | |- context [catch_account ?l ?e ?w0] =>
           let tail := fresh "tail" in
           destruct (catch_account_trace l e w0) as (tail & Ht & ? & ? & ?);
           destruct (catch_account l e w0) as [t' r'];
           cbn in Ht |- *; subst t'; now exists tail
       end.
  1: destruct data as [[[bs|]]|]; cbn.
  all: eexists; (split; [reflexivity|]); cbn; repeat split; lia.
Qed.

(** ** Credentials *)

Lemma truthy_false (o : option string) : truthy o = false <-> absent_or_empty o.
Proof.
  unfold absent_or_empty. destruct o as [s|]; cbn.
  - destruct (String.eqb_spec s ""); cbn; split; intros H;
      try discriminate; try (right; congruence); try reflexivity.
    destruct H as [H|H]; [discriminate | congruence].
  - split; [now left | reflexivity].
Qed.

Lemma truthy_true (o : option string) :
  truthy o = true <-> exists s, o = Some s /\ s <> "".
Proof.
  destruct o as [s|]; cbn.
  - destruct (String.eqb_spec s ""); cbn; split.
    + discriminate.
    + intros (s' & [= <-] & Hne). contradiction.
    + intros _. now exists s.
    + reflexivity.
  - split; [discriminate | intros (s & H & _); discriminate].
Qed.

Lemma credentials_guard (a b : option string) :
  negb (truthy a) || negb (truthy b) = true
  <-> absent_or_empty a \/ absent_or_empty b.
Proof.
  rewrite orb_true_iff, !negb_true_iff, !truthy_false. reflexivity.
Qed.

(** C5. On every account-scoped route, a request whose key or secret
    header is absent or empty is answered 400 and leaves no other trace:
    no signature is computed and no outbound call is made.  An outbound
    call happens only when both headers are present and non-empty. *)
Theorem credentials_required (r : route) (req : request) (w : env (body_of r)) :
  account_scoped r = true ->
  ((absent_or_empty (api_key req) \/ absent_or_empty (api_secret req)) ->
   run (handler r req) w = [Replied 400 missing_credentials]
   /\ signatures (run (handler r req) w) = []
   /\ requests (run (handler r req) w) = [])
  /\ (requests (run (handler r req) w) <> [] ->
      (exists k, api_key req = Some k /\ k <> "")
      /\ (exists s, api_secret req = Some s /\ s <> "")).
Proof.
  intros Hr. pose proof (account_route_trace r req w Hr) as Ht.
  destruct (negb (truthy (api_key req)) || negb (truthy (api_secret req))) eqn:Hg.
  - split.
    + intros _. rewrite Ht. now repeat split.
    + rewrite Ht. intros Hreq. now elim Hreq.
  - split.
    + intros Hmiss. apply credentials_guard in Hmiss. congruence.
    + intros _. apply orb_false_iff in Hg as [Hk Hs].
      apply negb_false_iff in Hk, Hs.
      now rewrite <- !truthy_true.
Qed.

Lemma credentials_required_witness :
  run (handler Balances anonymous) (answering None) = [Replied 400 missing_credentials]
  /\ signatures (run (handler Balances anonymous) (answering None)) = []
  /\ requests (run (handler Balances anonymous) (answering None)) = [].
Proof.
  apply (credentials_required Balances anonymous (answering None)).
  - reflexivity.
  - left. left. reflexivity.
Defined.

(** ** What is sent upstream by the account routes *)

Lemma set_if_present_elem k field (q : object value) (x : string * value) :
  x ∈ set_if_present k field q ->
  (exists s, field = Some s /\ x = (k, VStr s)) \/ x ∈ q.
Proof.
  unfold set_if_present. destruct (truthy field) eqn:Hf; [|now right].
  apply truthy_true in Hf as (s & -> & _). cbn [of_field].
  intros Hx. apply set_elem in Hx as [->|Hx]; [left; now exists s | now right].
Qed.

Lemma assembled_entries r timestamp (query : gmap string string) k v :
  (r = MyTrades -> truthy (query !! "symbol") = true) ->
  (k, v) ∈ assembled r timestamp query ->
  (k = "timestamp" /\ v = VNum timestamp)
  \/ (exists s, query !! k = Some s /\ v = VStr s).
Proof.
  intros Hsym Hin.
  assert (Hacc : (k, v) ∈ account_params timestamp ->
                 k = "timestamp" /\ v = VNum timestamp).
  { unfold account_params. rewrite list_elem_of_singleton. now intros [= -> ->]. }
  destruct r; try (left; exact (Hacc Hin)); clear Hacc;
    unfold assembled, openOrders_params, myTrades_params in Hin;
    repeat (apply set_if_present_elem in Hin as [(s & Hs & [= -> ->])|Hin];
            [right; now exists s|]).
  - apply list_elem_of_singleton in Hin as [= -> ->]. now left.
  - rewrite !elem_of_cons in Hin. destruct Hin as [[= -> ->]|[[= -> ->]|Hin]].
    + now left.
    + right. apply truthy_true in Hsym as (s & Hs & _); [|reflexivity].
      exists s. now rewrite Hs.
    + now apply not_elem_of_nil in Hin.
Qed.

Lemma outbound_is_signed_request
    (r : route) (req : request) (w : env (body_of r)) (c : outbound) :
  account_scoped r = true ->
  c ∈ requests (run (handler r req) w) ->
  exists key secret,
    api_key req = Some key /\ api_secret req = Some secret
    /\ (r = MyTrades -> truthy (req_query req !! "symbol") = true)
    /\ c = signed_request r key secret (now w) (req_query req).
Proof.
  intros Hr Hc. pose proof (account_route_trace r req w Hr) as Ht.
  destruct (negb (truthy (api_key req)) || negb (truthy (api_secret req))) eqn:Hg.
  { rewrite Ht in Hc. now apply not_elem_of_nil in Hc. }
  apply orb_false_iff in Hg as [Hk Hs]. apply negb_false_iff in Hk, Hs.
  apply truthy_true in Hk as (key & Hkey & _), Hs as (secret & Hsecret & _).
  destruct Ht as [(_ & _ & body & Ht) | (Hsym & tail & Ht & Hreq & _)].
  { rewrite Ht in Hc. now apply not_elem_of_nil in Hc. }
  rewrite Ht in Hc. cbn in Hc. fold (requests tail) in Hc. rewrite Hreq in Hc.
  apply list_elem_of_singleton in Hc as ->.
  rewrite Hkey, Hsecret. cbn [str default].
  now exists key, secret.
Qed.

(** C8. The outbound request of an account route: the fixed upstream URL;
    as query parameters the assembled parameter set (the timestamp and the
    caller's query fields, nothing taken from a header) followed by the
    signature; as only header the API key under [X-MBX-APIKEY].  The secret
    enters the request through the signature alone, the key through the
    header alone. *)
Theorem outbound_request_shape (r : route) (req : request) (w : env (body_of r))
    (c : outbound) :
  account_scoped r = true ->
  c ∈ requests (run (handler r req) w) ->
  exists key secret,
    api_key req = Some key /\ api_secret req = Some secret
    /\ url c = BINANCE_API_BASE +:+ upstream_path r
    /\ params c
       = assembled r (now w) (req_query req)
         ++ [("signature",
              VStr (createBinanceSignature secret (assembled r (now w) (req_query req))))]
    /\ headers c = [("X-MBX-APIKEY", key)]
    /\ ("signature" ∉ (assembled r (now w) (req_query req)).*1)
    /\ forall k v, (k, v) ∈ assembled r (now w) (req_query req) ->
         (k = "timestamp" /\ v = VNum (now w))
         \/ (exists s, req_query req !! k = Some s /\ v = VStr s).
Proof.
  intros Hr Hc.
  destruct (outbound_is_signed_request r req w c Hr Hc)
    as (key & secret & Hkey & Hsecret & Hsym & ->).
  exists key, secret. repeat split; try assumption.
  - intros Hin. apply assembled_keys in Hin. set_solver.
  - intros k v. now apply assembled_entries.
Qed.

Lemma outbound_request_shape_witness :
  exists key secret,
    api_key trades_request = Some key /\ api_secret trades_request = Some secret
    /\ url trades_call = BINANCE_API_BASE +:+ upstream_path MyTrades
    /\ params trades_call
       = assembled MyTrades 1700000000000 (req_query trades_request)
         ++ [("signature",
              VStr (createBinanceSignature secret
                      (assembled MyTrades 1700000000000 (req_query trades_request))))]
    /\ headers trades_call = [("X-MBX-APIKEY", key)]
    /\ ("signature" ∉ (assembled MyTrades 1700000000000 (req_query trades_request)).*1)
    /\ forall k v,
         (k, v) ∈ assembled MyTrades 1700000000000 (req_query trades_request) ->
         (k = "timestamp" /\ v = VNum 1700000000000)
         \/ (exists s, req_query trades_request !! k = Some s /\ v = VStr s).
Proof.
  apply (outbound_request_shape MyTrades trades_request (answering JNull) trades_call).
  - reflexivity.
  - vm_compute. apply list_elem_of_here.
Defined.

(** Two requests that differ in the secret only lead to outbound requests
    that differ in the value of the signature only. *)
Lemma secret_reaches_upstream_as_signature_only
    (r : route) (req req' : request) (w w' : env (body_of r)) (c c' : outbound) :
  account_scoped r = true ->
  req_query req = req_query req' -> api_key req = api_key req' -> now w = now w' ->
  c ∈ requests (run (handler r req) w) ->
  c' ∈ requests (run (handler r req') w') ->
  url c = url c' /\ headers c = headers c'
  /\ exists P sig sig',
       params c = P ++ [("signature", VStr sig)]
       /\ params c' = P ++ [("signature", VStr sig')].
Proof.
  intros Hr Hq Hkeys Hnow Hc Hc'.
  destruct (outbound_is_signed_request r req w c Hr Hc)
    as (key & secret & Hkey & _ & _ & ->).
  destruct (outbound_is_signed_request r req' w' c' Hr Hc')
    as (key' & secret' & Hkey' & _ & _ & ->).
  assert (key' = key) as -> by congruence.
  unfold signed_request. cbn [url headers params]. rewrite <- Hq, <- Hnow.
  repeat split. eexists _, _, _. split; reflexivity.
Qed.

Lemma secret_reaches_upstream_as_signature_only_witness :
  url (signed_request Account "key-1" "s3cr3t" 1700000000000 ∅)
  = url (signed_request Account "key-1" "other" 1700000000000 ∅)
  /\ headers (signed_request Account "key-1" "s3cr3t" 1700000000000 ∅)
     = headers (signed_request Account "key-1" "other" 1700000000000 ∅)
  /\ exists P sig sig',
       params (signed_request Account "key-1" "s3cr3t" 1700000000000 ∅)
       = P ++ [("signature", VStr sig)]
       /\ params (signed_request Account "key-1" "other" 1700000000000 ∅)
          = P ++ [("signature", VStr sig')].
Proof.
  apply (secret_reaches_upstream_as_signature_only Account
           (with_credentials [])
           (request_of [("x-api-key", "key-1"); ("x-api-secret", "other")] [])
           (answering JNull) (answering JNull));
    try reflexivity; vm_compute; apply list_elem_of_here.
Defined.

(** Two requests that differ in the key only lead to outbound requests
    that differ in the [X-MBX-APIKEY] header only. *)
Lemma key_reaches_upstream_as_header_only
    (r : route) (req req' : request) (w w' : env (body_of r)) (c c' : outbound) :
  account_scoped r = true ->
  req_query req = req_query req' -> api_secret req = api_secret req' -> now w = now w' ->
  c ∈ requests (run (handler r req) w) ->
  c' ∈ requests (run (handler r req') w') ->
  url c = url c' /\ params c = params c'
  /\ exists key key',
       headers c = [("X-MBX-APIKEY", key)] /\ headers c' = [("X-MBX-APIKEY", key')].
Proof.
  intros Hr Hq Hsecrets Hnow Hc Hc'.
  destruct (outbound_is_signed_request r req w c Hr Hc)
    as (key & secret & _ & Hsecret & _ & ->).
  destruct (outbound_is_signed_request r req' w' c' Hr Hc')
    as (key' & secret' & _ & Hsecret' & _ & ->).
  assert (secret' = secret) as -> by congruence.
  unfold signed_request. cbn [url headers params]. rewrite <- Hq, <- Hnow.
  repeat split. now exists key, key'.
Qed.


(** ** [parseFloat] on plain decimal amounts *)

Lemma digits_value_fold_nonneg (ds : list ascii) (acc : Z) :
  Forall (fun c => is_digit c = true) ds -> 0 <= acc ->
  0 <= fold_left (fun a c => 10 * a + (code c - 48)) ds acc.
Proof.
  intros Hds. revert acc. induction Hds as [|c ds Hc _ IH]; intros acc Hacc; cbn [fold_left].
  - exact Hacc.
  - apply IH. unfold is_digit in Hc. apply andb_true_iff in Hc as [H1 H2].
    apply Z.leb_le in H1, H2. lia.
Qed.

Lemma digits_value_nonneg (ds : list ascii) :
  Forall (fun c => is_digit c = true) ds -> 0 <= digits_value ds.
Proof. intros Hds. apply digits_value_fold_nonneg; [exact Hds | lia]. Qed.

Lemma span_digits_all (ds : list ascii) :
  Forall (fun c => is_digit c = true) ds -> span_digits ds = (ds, []).
Proof.
  induction 1 as [|c ds Hc _ IH]; cbn [span_digits]; [reflexivity|].
  now rewrite Hc, IH.
Qed.

Lemma span_digits_stop (ds : list ascii) (c : ascii) (rest : list ascii) :
  Forall (fun c => is_digit c = true) ds -> is_digit c = false ->
  span_digits (ds ++ c :: rest) = (ds, c :: rest).
Proof.
  intros Hds Hc. induction Hds as [|d ds Hd _ IH]; cbn [span_digits app].
  - now rewrite Hc.
  - now rewrite Hd, IH.
Qed.

Lemma digit_code (c : ascii) : is_digit c = true -> 48 <= code c <= 57.
Proof.
  unfold is_digit. intros H. apply andb_true_iff in H as [H1 H2].
  apply Z.leb_le in H1, H2. lia.
Qed.

Lemma trim_start_digit (fuel : nat) (c : ascii) (cs : list ascii) :
  is_digit c = true -> trim_start fuel (c :: cs) = c :: cs.
Proof.
  intros Hc. apply digit_code in Hc.
  destruct fuel as [|fuel]; [reflexivity|]. cbn [trim_start skip_space].
  assert (Hne : forall n, (n < 48 \/ 57 < n) -> (code c =? n) = false)
    by (intros n Hn; apply Z.eqb_neq; lia).
  rewrite !Hne by lia. cbn [orb].
  destruct cs as [|b [|d cs]]; try reflexivity.
  - now rewrite Hne by lia.
  - rewrite Hne by lia. cbn [andb]. unfold unicode_space.
    now rewrite !Hne by lia.
Qed.

Lemma starts_with_Infinity_digit (c : ascii) (cs : list ascii) :
  is_digit c = true -> starts_with "Infinity" (c :: cs) = false.
Proof.
  intros Hc. apply digit_code in Hc. unfold starts_with.
  apply bool_decide_eq_false. cbn. intros [= -> _].
  change (code "I"%char) with 73 in Hc. lia.
Qed.

Lemma pow10_below_half_subnormal (n : Z) : 0 <= n <= 323 -> 10 ^ n < 2 ^ 1075.
Proof.
  intros Hn. apply Z.le_lt_trans with (10 ^ 323).
  - apply Z.pow_le_mono_r; lia.
  - vm_compute. reflexivity.
Qed.

Lemma parseFloat_positive_numeral (c : ascii) (rest : list ascii) :
  is_digit c = true ->
  parseFloat_positive (string_of_list_ascii (c :: rest)) = unsigned_positive (c :: rest).
Proof.
  intros Hc. unfold parseFloat_positive.
  rewrite list_ascii_of_string_of_list_ascii, trim_start_digit by exact Hc.
  pose proof (digit_code c Hc) as Hcode.
  replace (code c =? 45) with false by (symmetry; apply Z.eqb_neq; lia).
  replace (code c =? 43) with false by (symmetry; apply Z.eqb_neq; lia).
  reflexivity.
Qed.

Lemma unsigned_positive_point (int_part frac_part : list ascii) :
  Forall (fun c => is_digit c = true) int_part ->
  Forall (fun c => is_digit c = true) frac_part ->
  int_part <> [] -> (length frac_part <= 323)%nat ->
  unsigned_positive (int_part ++ "."%char :: frac_part)
  = (0 <? digits_value (int_part ++ frac_part)).
Proof.
  intros Hint Hfrac Hne Hlen.
  destruct int_part as [|c int_part]; [contradiction|]. clear Hne.
  pose proof (Forall_inv Hint) as Hc.
  unfold unsigned_positive. rewrite <- app_comm_cons.
  rewrite starts_with_Infinity_digit by exact Hc.
  rewrite app_comm_cons, span_digits_stop by (assumption || reflexivity).
  change (code "."%char =? 46) with true. cbv iota.
  rewrite span_digits_all by exact Hfrac.
  cbn [exponent app].
  assert (Hm : 0 <= digits_value (c :: int_part ++ frac_part)).
  { apply digits_value_nonneg. rewrite app_comm_cons. now apply Forall_app. }
  set (m := digits_value (c :: int_part ++ frac_part)) in *.
  destruct (Z.leb_spec 0 (0 - Z.of_nat (length frac_part))) as [_|Hneg]; [reflexivity|].
  replace (- (0 - Z.of_nat (length frac_part))) with (Z.of_nat (length frac_part)) by lia.
  pose proof (pow10_below_half_subnormal (Z.of_nat (length frac_part))) as Hpow.
  assert (0 < 10 ^ Z.of_nat (length frac_part)) by (apply Z.pow_pos_nonneg; lia).
  set (p := 2 ^ 1075) in *. set (q := 10 ^ Z.of_nat (length frac_part)) in *.
  destruct (Z.ltb_spec 0 m) as [Hpos|Hzero].
  - apply Z.ltb_lt. assert (q < p) by (apply Hpow; lia). nia.
  - apply Z.ltb_ge. assert (m = 0) as -> by lia. lia.
Qed.


(** On an amount written as digits, a point and at most 323 further digits
    (the exchange writes eight), the test is the positivity of the decimal
    number: [digits_value (int_part ++ frac_part)] is the amount scaled by
    a power of ten. *)
Lemma parseFloat_positive_decimal (int_part frac_part : list ascii) :
  Forall (fun c => is_digit c = true) int_part ->
  Forall (fun c => is_digit c = true) frac_part ->
  int_part <> [] -> (length frac_part <= 323)%nat ->
  parseFloat_positive (string_of_list_ascii (int_part ++ "."%char :: frac_part))
  = (0 <? digits_value (int_part ++ frac_part)).
Proof.
  intros Hint Hfrac Hne Hlen.
  rewrite <- (unsigned_positive_point int_part frac_part Hint Hfrac Hne Hlen).
  destruct int_part as [|c int_part]; [contradiction|].
  rewrite <- app_comm_cons. apply parseFloat_positive_numeral.
  exact (Forall_inv Hint).
Qed.

Lemma parseFloat_positive_decimal_witness :
  parseFloat_positive "0.00000001"
  = (0 <? digits_value (list_ascii_of_string "0" ++ list_ascii_of_string "00000001")).
Proof.
  apply (parseFloat_positive_decimal (list_ascii_of_string "0")
                                     (list_ascii_of_string "00000001")).
  - repeat constructor.
  - repeat constructor.
  - discriminate.
  - cbn. lia.
Defined.

Example parseFloat_positive_samples :
  map parseFloat_positive
      ["0"; "1.5"; "0.00000000"; "0.00000001"; " 2"; "-3"; "abc"; ".5"; "1e-400";
       "Infinity"; "2e-324"; "3e-324"; ""]
  = [false; true; false; true; true; false; false; true; false; true; false; true; false].
Proof. vm_compute. reflexivity. Qed.

(** ** Amounts and the test of the handler *)








(** ** GET /balances *)

Lemma str_some (o : option string) (s : string) : o = Some s -> str o = s.
Proof. now intros ->. Qed.

Lemma balances_run (req : request) (w : env (option account_info)) key secret :
  api_key req = Some key -> key <> "" ->
  api_secret req = Some secret -> secret <> "" ->
  run (handler Balances req) w
  = Signed secret (account_params (now w))
      :: Requested (signed_request Balances key secret (now w) (req_query req))
      :: match exchange w (signed_request Balances key secret (now w) (req_query req)) with
         | Fulfilled (Some {| balances := Some bs |}) =>
             [Replied 200 (JArr (map reshape (List.filter nonzero bs)))]
         | Fulfilled _ =>
             [Replied 500 (JObj [("error", JStr "Invalid response from Binance API")])]
         | Rejected error =>
             (catch_account (failure_label Balances) (AxiosError error) w).1
         end.
Proof.
  intros Hk Hkne Hs Hsne. unfold api_key, api_secret in Hk, Hs.
  assert (Hg : negb (truthy (req_headers req !! "x-api-key"))
               || negb (truthy (req_headers req !! "x-api-secret")) = false).
  { apply orb_false_iff. rewrite !negb_false_iff, !truthy_true.
    split; [now exists key | now exists secret]. }
  unfold run, handler, get_balances, try_catch. rewrite Hg.
  unfold mbind, io_bind, date_now.
  change (account_params (now w)) with (assembled Balances (now w) (req_query req)).
  change "/api/v3/account" with (upstream_path Balances).
  rewrite signed_get_run.
  rewrite (str_some _ _ Hk), (str_some _ _ Hs).
  destruct (exchange w _) as [data|error]; cbn.
  - now destruct data as [[[bs|]]|].
  - now destruct (catch_account _ _ w).
Qed.







(** What the amended statement keeps and drops on sample amounts. *)
Example amounts_read :
  (positive_amount "1.5" /\ positive_amount "0.00000001" /\ positive_amount "15")
  /\ ~ positive_amount "0" /\ ~ positive_amount "0.00000000"
  /\ ~ positive_amount "abc" /\ ~ positive_amount "-3" /\ ~ positive_amount ""
  /\ plain_amount "0" /\ plain_amount "0.00000001" /\ ~ plain_amount dust.
Proof.
  repeat split; try (vm_compute; reflexivity);
    try (vm_compute; discriminate); try (vm_compute; tauto).
  - unfold plain_amount. cbn. lia.
  - unfold plain_amount. cbn. lia.
  - unfold plain_amount.
    replace (read_decimal dust)
      with (Some {| units := [0]; decimals := replicate 323 0 ++ [1] |})
      by (vm_compute; reflexivity).
    cbn [decimals]. rewrite length_app, length_replicate. cbn. lia.
Qed.

Example balances_spec_example :
  replies (run (handler Balances (with_credentials []))
               (answering (Some {| balances := Some
                  [ {| asset := "BTC"; free := "0"; locked := "0" |};
                    {| asset := "ETH"; free := "1.5"; locked := "0" |} ] |})))
  = [(200, JArr [JObj [("asset", JStr "ETH"); ("available", JStr "1.5");
                       ("onOrder", JStr "0")]])].
Proof. vm_compute. reflexivity. Qed.

(** C10. With credentials present, a 2xx reply whose body is absent or
    has no [balances] field is answered 500 with the fixed error body. *)
Theorem balances_invalid_body
    (req : request) (w : env (body_of Balances)) key secret data :
  api_key req = Some key -> key <> "" ->
  api_secret req = Some secret -> secret <> "" ->
  exchange w (signed_request Balances key secret (now w) (req_query req))
  = Fulfilled data ->
  data = None \/ data = Some {| balances := None |} ->
  run (handler Balances req) w
  = [ Signed secret (account_params (now w));
      Requested (signed_request Balances key secret (now w) (req_query req));
      Replied 500 (JObj [("error", JStr "Invalid response from Binance API")]) ].
Proof.
  intros Hk Hkne Hs Hsne Hx Hdata. cbn [body_of] in w, Hx.
  rewrite (balances_run req w key secret Hk Hkne Hs Hsne), Hx.
  now destruct Hdata as [-> | ->].
Qed.

Lemma balances_invalid_body_witness :
  run (handler Balances (with_credentials [])) (answering (Some {| balances := None |}))
  = [ Signed "s3cr3t" (account_params 1700000000000);
      Requested (signed_request Balances "key-1" "s3cr3t" 1700000000000
                   (req_query (with_credentials [])));
      Replied 500 (JObj [("error", JStr "Invalid response from Binance API")]) ].
Proof.
  apply (balances_invalid_body (with_credentials [])
           (answering (Some {| balances := None |})) "key-1" "s3cr3t"
           (Some {| balances := None |}));
    try reflexivity; try discriminate.
  right. reflexivity.
Defined.

(** ** GET /prices *)

Lemma prices_object_insertions (data : list price_item) :
  prices_object data = of_insertions (map price_entry data).
Proof.
  unfold prices_object, of_insertions. generalize (@nil (string * json)).
  induction data as [|item data IH]; intros acc; cbn [map fold_left];
    [reflexivity | apply IH].
Qed.

Lemma price_entry_keys (data : list price_item) :
  (map price_entry data).*1 = symbol <$> data.
Proof. induction data as [|item data IH]; [reflexivity | cbn; now rewrite <- IH]. Qed.

Lemma prices_run (req : request) (w : env (list price_item)) data :
  exchange w ticker_call = Fulfilled data ->
  run (handler Prices req) w
  = [Requested ticker_call; Replied 200 (JObj (prices_object data))].
Proof.
  intros Hx.
  unfold run, handler, get_prices, try_catch, mbind, io_bind, axios_get, res_json, emit.
  fold ticker_call. now rewrite Hx.
Qed.

(** C7 (as stated, refuted).  The assignment [prices[item.symbol] = ...]
    on an object created by [{}] creates no property when the symbol is
    [__proto__]: the reply then lacks a symbol of the array. *)
Lemma prices_reply_lacks_proto_symbol :
  let data := [ {| symbol := "__proto__"; price := "1" |};
                {| symbol := "ETHUSDT"; price := "3000" |} ] in
  run (handler Prices anonymous) (answering data)
  = [Requested ticker_call; Replied 200 (JObj [("ETHUSDT", JStr "3000")])]
  /\ "__proto__" ∈ symbol <$> data
  /\ "__proto__" ∉ (prices_object data).*1.
Proof.
  cbv zeta. split; [vm_compute; reflexivity|]. split.
  - apply list_elem_of_here.
  - intros H. apply list_elem_of_singleton in H. discriminate.
Qed.

(** C7 (amended).  On a 2xx bulk price array, the reply is 200 with an
    object that is a mapping (no key twice) whose keys are exactly the
    symbols of the array other than [__proto__] and which binds every such
    symbol to the price string of the last entry carrying it, hence to
    every entry's own price when the symbols of the array are pairwise
    distinct.  Its properties come in the order of enumeration, symbols
    that are array indices first; when the symbols are pairwise distinct
    and none is an array index or [__proto__], the object lists the
    entries one for one, in order. *)
Theorem prices_flattened (req : request) (w : env (body_of Prices))
    (data : list price_item) :
  exchange w ticker_call = Fulfilled data ->
  exists prices : object json,
    run (handler Prices req) w = [Requested ticker_call; Replied 200 (JObj prices)]
    /\ NoDup prices.*1
    /\ (forall s, s ∈ prices.*1 <-> s ∈ symbol <$> data /\ s <> "__proto__")
    /\ (forall before item after,
          data = before ++ item :: after ->
          symbol item ∉ symbol <$> after ->
          symbol item <> "__proto__" ->
          get (symbol item) prices = Some (JStr (price item)))
    /\ enumeration_ordered prices.*1
    /\ (NoDup (symbol <$> data) -> Forall ordinary_name (symbol <$> data) ->
        prices = map (fun item => (symbol item, JStr (price item))) data).
Proof.
  intros Hx. cbn [body_of] in w, Hx.
  exists (prices_object data). split; [now apply prices_run|].
  rewrite prices_object_insertions. unfold of_insertions.
  split; [|split; [|split; [|split]]].
  - apply fold_set_NoDup. apply NoDup_nil_2.
  - intros s.
    rewrite fold_set_keys, price_entry_keys, fmap_nil, elem_of_nil. tauto.
  - intros before item after -> Hlast Hp.
    rewrite map_app. cbn [map]. apply of_insertions_last_wins; [|exact Hp].
    now rewrite price_entry_keys.
  - apply fold_set_ordered. constructor.
  - intros Hnd Hnames. apply fold_set_distinct.
    + now rewrite price_entry_keys.
    + now rewrite price_entry_keys.
Qed.

Lemma prices_flattened_witness :
  exists prices : object json,
    run (handler Prices anonymous)
        (answering [ {| symbol := "BTCUSDT"; price := "50000" |};
                     {| symbol := "ETHUSDT"; price := "3000" |} ])
    = [Requested ticker_call; Replied 200 (JObj prices)]
    /\ prices = [("BTCUSDT", JStr "50000"); ("ETHUSDT", JStr "3000")].
Proof.
  destruct (prices_flattened anonymous
              (answering [ {| symbol := "BTCUSDT"; price := "50000" |};
                           {| symbol := "ETHUSDT"; price := "3000" |} ])
              [ {| symbol := "BTCUSDT"; price := "50000" |};
                {| symbol := "ETHUSDT"; price := "3000" |} ] eq_refl)
    as (prices & Hrun & _ & _ & _ & _ & Hexact).
  exists prices. split; [exact Hrun|].
  apply Hexact.
  - apply (bool_decide_unpack _). vm_compute. reflexivity.
  - repeat (apply Forall_cons; split); try apply Forall_nil_2;
      (split; [vm_compute; reflexivity | discriminate]).
Defined.

(** With a repeated symbol the last entry decides; a symbol that is an
    array index is enumerated first. *)
Example prices_repeated_symbol :
  prices_object [ {| symbol := "BTCUSDT"; price := "1" |};
                  {| symbol := "ETHUSDT"; price := "2" |};
                  {| symbol := "BTCUSDT"; price := "3" |} ]
  = [("BTCUSDT", JStr "3"); ("ETHUSDT", JStr "2")].
Proof. vm_compute. reflexivity. Qed.

Example prices_array_index_symbol :
  prices_object [ {| symbol := "BTCUSDT"; price := "1" |};
                  {| symbol := "42"; price := "2" |};
                  {| symbol := "7"; price := "3" |} ]
  = [("7", JStr "3"); ("42", JStr "2"); ("BTCUSDT", JStr "1")].
Proof. vm_compute. reflexivity. Qed.

(** ** GET /klines *)

Lemma klines_run (req : request) (w : env json) :
  run (handler Klines req) w
  = Requested (klines_call req)
      :: match exchange w (klines_call req) with
         | Fulfilled data => [Replied 200 data]
         | Rejected error => [Replied 500 (JObj [("error", JStr (message error))])]
         end.
Proof.
  run_public. fold (klines_call req).
  now destruct (exchange w (klines_call req)).
Qed.

(** C4 (violated by the handler).  A request to /klines without any of
    the three parameters is not answered with a 400: unlike /myTrades and
    the stand-alone price function, which check for their symbol, the
    handler makes the upstream call, and the reply is the upstream body
    with 200, or a 500 if the exchange rejects the call. *)
Lemma klines_without_parameters_is_forwarded :
  run (handler Klines anonymous) (answering (JArr []))
  = [ Requested {| url := "https://api.binance.com/api/v3/klines";
                   params := [("symbol", VUndefined); ("interval", VUndefined);
                              ("limit", VUndefined)];
                   headers := [] |};
      Replied 200 (JArr []) ]
  /\ replies (run (handler Klines anonymous) teapot)
     = [(500, JObj [("error", JStr "Request failed with status code 418")])]
  /\ length (requests (run (handler Klines anonymous) teapot)) = 1%nat.
Proof. repeat split; vm_compute; reflexivity. Qed.

(** The same for every request: whatever it lacks, exactly one call goes
    to the upstream klines endpoint, carrying the parameters among symbol,
    interval and limit that were supplied, and a 2xx reply is passed
    through unchanged with status 200. *)
Lemma klines_forwards_unvalidated (req : request) (w : env (body_of Klines)) :
  requests (run (handler Klines req) w) = [klines_call req]
  /\ sent_params (klines_call req) = supplied req ["symbol"; "interval"; "limit"]
  /\ forall data,
       exchange w (klines_call req) = Fulfilled data ->
       run (handler Klines req) w = [Requested (klines_call req); Replied 200 data].
Proof.
  cbn [body_of] in w. rewrite klines_run. repeat split.
  - now destruct (exchange w (klines_call req)).
  - unfold sent_params, supplied, klines_call.
    cbn [params omap list_omap fmap option_fmap option_map].
    destruct (req_query req !! "symbol"), (req_query req !! "interval"),
      (req_query req !! "limit"); reflexivity.
  - intros data Hx. cbn [body_of] in Hx. now rewrite Hx.
Qed.

Lemma klines_forwards_unvalidated_witness :
  run (handler Klines (request_of [] [("symbol", "BTCUSDT"); ("interval", "1m")]))
      (answering (JArr [JNum 1]))
  = [ Requested (klines_call (request_of [] [("symbol", "BTCUSDT"); ("interval", "1m")]));
      Replied 200 (JArr [JNum 1]) ]
  /\ sent_params (klines_call (request_of [] [("symbol", "BTCUSDT"); ("interval", "1m")]))
     = [("symbol", VStr "BTCUSDT"); ("interval", VStr "1m")].
Proof.
  destruct (klines_forwards_unvalidated
              (request_of [] [("symbol", "BTCUSDT"); ("interval", "1m")])
              (answering (JArr [JNum 1]))) as (_ & Hsent & Hrun).
  split.
  - apply Hrun. reflexivity.
  - rewrite Hsent. vm_compute. reflexivity.
Defined.

(** ** Upstream errors *)

Lemma account_route_run (r : route) (req : request) (w : env (body_of r)) key secret :
  account_scoped r = true ->
  api_key req = Some key -> key <> "" ->
  api_secret req = Some secret -> secret <> "" ->
  (r = MyTrades -> truthy (req_query req !! "symbol") = true) ->
  run (handler r req) w
  = Signed secret (assembled r (now w) (req_query req))
      :: Requested (signed_request r key secret (now w) (req_query req))
      :: match exchange w (signed_request r key secret (now w) (req_query req)) with
         | Fulfilled data => on_success r data
         | Rejected error => (catch_account (failure_label r) (AxiosError error) w).1
         end.
Proof.
  intros Hr Hk Hkne Hs Hsne Hsym. unfold api_key, api_secret in Hk, Hs.
  assert (Hg : negb (truthy (req_headers req !! "x-api-key"))
               || negb (truthy (req_headers req !! "x-api-secret")) = false).
  { apply orb_false_iff. rewrite !negb_false_iff, !truthy_true.
    split; [now exists key | now exists secret]. }
  destruct r; try discriminate Hr; clear Hr; cbn [body_of] in w |- *;
    unfold run, handler, get_balances, get_account, get_openOrders, get_myTrades,
      try_catch; rewrite Hg.
  4: rewrite (Hsym eq_refl); cbn [negb].
  all: unfold mbind, io_bind, date_now.
  all: match goal with
       | |- _ = _ :: Requested (signed_request ?r0 _ _ _ _) :: _ =>
           match goal with
           | |- context [signed_get ?p _ _ ?q] =>
               change q with (assembled r0 (now w) (req_query req));
               change p with (upstream_path r0)
           end
       end.
  all: rewrite signed_get_run, (str_some _ _ Hk), (str_some _ _ Hs).
  all: destruct_exchange; cbn.
  all: try match goal with
       | |- context [catch_account ?l ?e ?w0] =>
           now destruct (catch_account l e w0)
       end.
  all: try reflexivity.
  now destruct data as [[[bs|]]|].
Qed.

(** The account routes hand the upstream status on, with the label, the
    status and the upstream's [msg] (or the error's message). *)
Lemma account_routes_relay_status
    (r : route) (req : request) (w : env (body_of r)) key secret error resp :
  account_scoped r = true ->
  api_key req = Some key -> key <> "" ->
  api_secret req = Some secret -> secret <> "" ->
  (r = MyTrades -> truthy (req_query req !! "symbol") = true) ->
  exchange w (signed_request r key secret (now w) (req_query req)) = Rejected error ->
  response error = Some resp ->
  response_data resp <> JNull ->
  replies (run (handler r req) w)
  = [(response_status resp,
      JObj [("error", JStr (failure_label r));
            ("code", JNum (response_status resp));
            ("message",
             or_else (match response_data resp with
                      | JObj fields => get "msg" fields
                      | _ => None
                      end)
                     (JStr (message error)))])].
Proof.
  intros Hr Hk Hkne Hs Hsne Hsym Hx Hresp Hdata.
  rewrite (account_route_run r req w key secret) by assumption.
  rewrite Hx. unfold catch_account. cbn [error_response_of error_message].
  rewrite Hresp. destruct (response_data resp); try reflexivity. now elim Hdata.
Qed.

Lemma account_routes_relay_status_witness :
  replies (run (handler MyTrades (with_credentials [("symbol", "BTCUSDT")])) teapot)
  = [(418, JObj [("error", JStr "Failed to fetch trade history from Binance");
                 ("code", JNum 418);
                 ("message", JStr "rate limited by exchange")])].
Proof.
  apply (account_routes_relay_status MyTrades
           (with_credentials [("symbol", "BTCUSDT")]) teapot "key-1" "s3cr3t"
           {| message := "Request failed with status code 418";
              response := Some {| response_status := 418;
                                  response_data :=
                                    JObj [("msg", JStr "rate limited by exchange")] |} |}
           {| response_status := 418;
              response_data := JObj [("msg", JStr "rate limited by exchange")] |});
    try reflexivity; discriminate.
Defined.

(** GET /price/:symbol does so too. *)
Lemma price_relays_status (req : request) (w : env price_item) error resp :
  exchange w {| url := BINANCE_API_BASE +:+ "/api/v3/ticker/price";
                params := [("symbol", of_field (req_params req !! "symbol"))];
                headers := [] |}
  = Rejected error ->
  response error = Some resp ->
  replies (run (handler Price req) w)
  = [(response_status resp,
      JObj [("error", JStr (failure_label Price)); ("details", response_data resp)])].
Proof.
  intros Hx Hresp. run_public. rewrite Hx. cbn. now rewrite Hresp.
Qed.

(** The other routes that call the exchange answer 500 whatever status the
    exchange gave. *)
Lemma fixed_500_routes_hide_status
    (r : route) (req : request) (w : env (body_of r)) c error :
  fixed_500 r = true ->
  c ∈ requests (run (handler r req) w) ->
  exchange w c = Rejected error ->
  exists body, replies (run (handler r req) w) = [(500, body)].
Proof.
  intros Hr Hc Hx.
  destruct r; try discriminate Hr; clear Hr; cbn [body_of] in w, Hx;
    revert Hc; run_public;
    try match goal with |- context [truthy ?x] => destruct (truthy x) end;
    destruct_exchange; cbn; intros Hc;
    apply list_elem_of_singleton in Hc; subst c;
    try congruence; eexists; reflexivity.
Qed.

(** C3 (violated by the code).  The exchange answers a well-formed /klines
    request with status 418 and a message; the relay replies with a fixed
    500 and the transport library's message, not the upstream status. *)
Theorem klines_hides_upstream_status :
  run (handler Klines
         (request_of [] [("symbol", "BTCUSDT"); ("interval", "1m"); ("limit", "10")]))
      teapot
  = [ Requested {| url := "https://api.binance.com/api/v3/klines";
                   params := [("symbol", VStr "BTCUSDT"); ("interval", VStr "1m");
                              ("limit", VStr "10")];
                   headers := [] |};
      Replied 500 (JObj [("error", JStr "Request failed with status code 418")]) ].
Proof. vm_compute. reflexivity. Qed.

(** The same exchange behind /balances: the status and the message are
    handed on. *)
Example balances_relays_teapot :
  replies (run (handler Balances (with_credentials [])) teapot)
  = [(418, JObj [("error", JStr "Failed to fetch balances from Binance");
                 ("code", JNum 418);
                 ("message", JStr "rate limited by exchange")])].
Proof. vm_compute. reflexivity. Qed.

(** ** Who calls the signature helper *)

Lemma public_routes_never_sign (r : route) (req : request) (w : env (body_of r)) :
  account_scoped r = false -> signatures (run (handler r req) w) = [].
Proof.
  intros Hr.
  destruct r; try discriminate Hr; clear Hr; cbn [body_of] in w |- *;
    run_public; try reflexivity;
    try match goal with |- context [truthy ?x] => destruct (truthy x) end;
    destruct_exchange; cbn; try reflexivity.
  now destruct (response error).
Qed.

(** C2 (amended).  The helper validates nothing and never fails: for every
    secret and every parameter set, the empty ones included, it returns the
    HMAC-SHA256 of the canonical string of the entries, keyed by the
    secret, as 64 lowercase hexadecimal digits.  Emptiness is screened by
    its callers: whenever a route computes a signature, the secret is the
    non-empty value of the secret header and the parameter set holds the
    timestamp just read from the clock. *)
Theorem sign_total_and_screened_by_callers :
  (forall S P,
     createBinanceSignature S P
     = Crypto.hex_of_bytes
         (Crypto.hmac_sha256 (Crypto.bytes_of_string S)
                             (Crypto.bytes_of_string (canonical P)))
     /\ is_digest (createBinanceSignature S P))
  /\ (forall (r : route) (req : request) (w : env (body_of r)) s q,
        (s, q) ∈ signatures (run (handler r req) w) ->
        api_secret req = Some s /\ s <> ""
        /\ get "timestamp" q = Some (VNum (now w))).
Proof.
  split.
  { intros S P. split; [apply signature_is_hmac | apply signature_is_digest]. }
  intros r req w s q Hin.
  destruct (account_scoped r) eqn:Hr.
  2: { rewrite public_routes_never_sign in Hin by exact Hr.
       now apply not_elem_of_nil in Hin. }
  pose proof (account_route_trace r req w Hr) as Ht.
  destruct (negb (truthy (api_key req)) || negb (truthy (api_secret req))) eqn:Hg.
  { rewrite Ht in Hin. now apply not_elem_of_nil in Hin. }
  apply orb_false_iff in Hg as [_ Hs]. apply negb_false_iff in Hs.
  apply truthy_true in Hs as (secret & Hsecret & Hne).
  destruct Ht as [(_ & _ & body & Ht) | (_ & tail & Ht & _ & Hsig & _)].
  { rewrite Ht in Hin. now apply not_elem_of_nil in Hin. }
  rewrite Ht in Hin. cbn in Hin. fold (signatures tail) in Hin. rewrite Hsig in Hin.
  apply list_elem_of_singleton in Hin as [= -> ->].
  rewrite Hsecret. cbn [str default]. repeat split; [exact Hne|].
  apply assembled_has_timestamp.
Qed.

Lemma sign_total_and_screened_by_callers_witness :
  createBinanceSignature "" []
  = Crypto.hex_of_bytes
      (Crypto.hmac_sha256 (Crypto.bytes_of_string "")
                          (Crypto.bytes_of_string (canonical [])))
  /\ is_digest (createBinanceSignature "" [])
  /\ api_secret (with_credentials [("symbol", "BTCUSDT")]) = Some "s3cr3t"
  /\ get "timestamp" [("timestamp", VNum 1700000000000); ("symbol", VStr "BTCUSDT")]
     = Some (VNum 1700000000000).
Proof.
  destruct sign_total_and_screened_by_callers as [Htotal Hcallers].
  split; [apply Htotal|]. split; [apply Htotal|].
  destruct (Hcallers OpenOrders (with_credentials [("symbol", "BTCUSDT")])
              (answering JNull) "s3cr3t"
              [("timestamp", VNum 1700000000000); ("symbol", VStr "BTCUSDT")])
    as (Hs & _ & Hts).
  - vm_compute. apply list_elem_of_here.
  - split; [exact Hs | exact Hts].
Defined.

(** ** The stand-alone price function *)

(** Without a symbol the function answers 400 and calls nobody. *)
Lemma symbol_price_requires_symbol (req : request) (w : env json) :
  absent_or_empty (req_query req !! "symbol") ->
  run (get_symbol_price req) w = [Replied 400 (JObj [("error", JStr "Symbol is required")])].
Proof.
  intros Hs. apply truthy_false in Hs.
  unfold run, get_symbol_price. now rewrite Hs.
Qed.

Lemma symbol_price_requires_symbol_witness :
  run (get_symbol_price anonymous) (answering JNull)
  = [Replied 400 (JObj [("error", JStr "Symbol is required")])].
Proof.
  apply (symbol_price_requires_symbol anonymous (answering JNull)).
  left. reflexivity.
Defined.

(** Both stand-alone functions answer a fixed 500 to any upstream failure. *)
Example market_data_hides_upstream_status :
  replies (run (get_market_data
                  {| req_headers := ∅; req_query := ∅;
                     req_params := {[ "symbol" := "BTCUSDT" ]} |}) teapot)
  = [(500, JObj [("error", JStr "Failed to fetch data from Binance")])]
  /\ replies (run (get_symbol_price (request_of [] [("symbol", "BTCUSDT")])) teapot)
     = [(500, JObj [("error", JStr "Failed to fetch data from Binance")])].
Proof. split; vm_compute; reflexivity. Qed.

(* ===================================================================== *)
(** * The route table as a whole *)
(* ===================================================================== *)

Lemma account_route_result (r : route) (req : request) (w : env (body_of r)) :
  account_scoped r = true ->
  handler r req w
  = if negb (truthy (api_key req)) || negb (truthy (api_secret req))
    then ([Replied 400 missing_credentials], inr tt)
    else if symbol_missing r req
    then ([Replied 400 missing_symbol], inr tt)
    else
      let c := signed_request r (str (api_key req)) (str (api_secret req))
                              (now w) (req_query req) in
      let '(tail, res) :=
        match exchange w c with
        | Fulfilled data => (on_success r data, inr tt)
        | Rejected error => catch_account (failure_label r) (AxiosError error) w
        end in
      (Signed (str (api_secret req)) (assembled r (now w) (req_query req))
         :: Requested c :: tail, res).
Proof.
  intros Hr. unfold api_key, api_secret, symbol_missing.
  destruct r; try discriminate Hr; clear Hr; cbn [body_of] in w |- *;
    unfold handler, get_balances, get_account, get_openOrders, get_myTrades,
      try_catch;
    (destruct (negb _ || negb _); [reflexivity|]).
  4: destruct (truthy (req_query req !! "symbol")); cbn [negb]; [|reflexivity].
  all: unfold mbind, io_bind, date_now.
  all: match goal with
       | |- context [signed_request ?r0 _ _ _ _] =>
           match goal with
           | |- context [signed_get ?p _ _ ?q] =>
               change q with (assembled r0 (now w) (req_query req));
               change p with (upstream_path r0)
           end
       end.
  all: rewrite signed_get_run; cbv zeta.
  all: destruct_exchange; cbn.
  all: try match goal with
       | |- context [catch_account ?l ?e ?w0] =>
           now destruct (catch_account l e w0)
       end.
  all: try reflexivity.
  now destruct data as [[[bs|]]|].
Qed.

(** Every route without credentials handles every outcome of its outbound
    call itself: once the call has settled, be it with a 2xx body of the
    shape the route reads or with a rejection of any kind, the handler
    completes normally and has sent exactly one reply. *)
Theorem public_routes_reply_once (r : route) (req : request) (w : env (body_of r)) :
  account_scoped r = false ->
  completion (handler r req) w = inr tt
  /\ exists status body, replies (run (handler r req) w) = [(status, body)].
Proof.
  intros Hr.
  destruct r; try discriminate Hr; clear Hr; cbn [body_of] in *;
    unfold completion; run_public;
    try match goal with |- context [truthy ?x] => destruct (truthy x) end;
    try destruct_exchange; cbn;
    try match goal with |- context [response ?e] => destruct (response e) end; cbn;
    (split; [reflexivity | eexists _, _; reflexivity]).
Qed.

Lemma public_routes_reply_once_witness :
  completion (handler Klines anonymous) unreachable = inr tt
  /\ exists status body,
       replies (run (handler Klines anonymous) unreachable) = [(status, body)].
Proof. apply (public_routes_reply_once Klines anonymous unreachable). reflexivity. Defined.

Lemma on_success_replies_once (r : route) (data : body_of r) :
  account_scoped r = true ->
  exists status body, on_success r data = [Replied status body].
Proof.
  intros Hr. destruct r; try discriminate Hr; cbn in data |- *;
    try (eexists _, _; reflexivity).
  destruct data as [[[bs|]]|]; eexists _, _; reflexivity.
Qed.

(** Once its signed call has settled (with a 2xx body of the shape the
    route reads, or with a rejection), an account route has sent at most
    one reply, and it has sent none exactly when the exchange rejected the
    call with a response whose body is [null]: the catch clause then throws
    while reading [msg], and the exception escapes the handler. *)
Theorem account_routes_reply_unless_null_body
    (r : route) (req : request) (w : env (body_of r)) :
  account_scoped r = true ->
  (length (replies (run (handler r req) w)) <= 1)%nat
  /\ (replies (run (handler r req) w) = []
      <-> exists c error resp,
            c ∈ requests (run (handler r req) w)
            /\ exchange w c = Rejected error
            /\ response error = Some resp
            /\ response_data resp = JNull)
  /\ (replies (run (handler r req) w) = []
      -> completion (handler r req) w = inl null_body_crash)
  /\ (replies (run (handler r req) w) <> []
      -> completion (handler r req) w = inr tt).
Proof.
  intros Hr. unfold run, completion. rewrite (account_route_result r req w Hr).
  destruct (negb _ || negb _).
  { cbn. repeat split; try lia; try discriminate.
    intros (c & _ & _ & Hc & _). now apply not_elem_of_nil in Hc. }
  destruct (symbol_missing r req).
  { cbn. repeat split; try lia; try discriminate.
    intros (c & _ & _ & Hc & _). now apply not_elem_of_nil in Hc. }
  cbv zeta.
  set (c := signed_request r _ _ _ _).
  destruct (exchange w c) as [data|error] eqn:Hx.
  - destruct (on_success_replies_once r data Hr) as (status & body & ->). cbn.
    repeat split; try lia; try discriminate.
    intros (c' & e & resp & Hc & Hx' & _).
    apply list_elem_of_singleton in Hc as ->. congruence.
  - unfold catch_account. cbn [error_response_of error_message].
    destruct (response error) as [resp|] eqn:Hresp.
    + destruct (response_data resp) eqn:Hdata; cbn;
        repeat split; try lia; try discriminate; try congruence;
        try (intros (c' & e & resp' & Hc & Hx' & Hr' & Hd');
             apply list_elem_of_singleton in Hc as ->; congruence).
      intros _. exists c, error, resp. repeat split; try assumption.
      apply list_elem_of_here.
    + cbn. repeat split; try lia; try discriminate.
      intros (c' & e & resp' & Hc & Hx' & Hr' & _).
      apply list_elem_of_singleton in Hc as ->. congruence.
Qed.

Lemma account_routes_reply_unless_null_body_witness :
  replies (run (handler Balances (with_credentials [])) null_gateway) = []
  /\ completion (handler Balances (with_credentials [])) null_gateway
     = inl null_body_crash.
Proof.
  destruct (account_routes_reply_unless_null_body Balances (with_credentials [])
              null_gateway eq_refl) as (_ & _ & Hcrash & _).
  split; [vm_compute; reflexivity | apply Hcrash; vm_compute; reflexivity].
Defined.

(** No retry and no fan-out: whatever the request and whatever the exchange
    answers, a handler makes at most one outbound call, and that call goes
    to the upstream path of its route under the fixed base URL. *)
Theorem at_most_one_outbound_call (r : route) (req : request) (w : env (body_of r)) :
  (length (requests (run (handler r req) w)) <= 1)%nat
  /\ forall c, c ∈ requests (run (handler r req) w) ->
       url c = BINANCE_API_BASE +:+ upstream_path r.
Proof.
  destruct (account_scoped r) eqn:Hr.
  - unfold run. rewrite (account_route_result r req w Hr).
    destruct (negb _ || negb _); [cbn; split; [lia | intros c Hc; now apply not_elem_of_nil in Hc]|].
    destruct (symbol_missing r req); [cbn; split; [lia | intros c Hc; now apply not_elem_of_nil in Hc]|].
    cbv zeta. set (c0 := signed_request r _ _ _ _).
    assert (Htail : exists tail res,
               match exchange w c0 with
               | Fulfilled data => (on_success r data, inr tt)
               | Rejected error => catch_account (failure_label r) (AxiosError error) w
               end = (tail, res) /\ requests tail = []).
    { destruct (exchange w c0) as [data|error].
      - destruct (on_success_replies_once r data Hr) as (status & body & ->).
        now eexists _, _.
      - destruct (catch_account_trace (failure_label r) (AxiosError error) w)
          as (tail & Ht & Hreq & _).
        destruct (catch_account _ _ w) as [t' res]. cbn in Ht. subst t'.
        now exists tail, res. }
    destruct Htail as (tail & res & -> & Hreq). cbn. fold (requests tail).
    rewrite Hreq. split; [cbn; lia|].
    intros c Hc. apply list_elem_of_singleton in Hc as ->. reflexivity.
  - revert Hr. intros Hr.
    destruct r; try discriminate Hr; clear Hr; cbn [body_of] in *; run_public;
      try match goal with |- context [truthy ?x] => destruct (truthy x) end;
      try destruct_exchange; cbn;
      try match goal with |- context [response ?e] => destruct (response e) end; cbn;
      (split; [lia|]); intros c Hc;
      try (now apply not_elem_of_nil in Hc);
      apply list_elem_of_singleton in Hc as ->; reflexivity.
Qed.

(** A route without credentials forwards no request header at all, so
    credentials sent to it stay in the relay, and every query parameter of
    its outbound call is the request's own query or route parameter of the
    same name. *)
Theorem public_routes_forward_no_header
    (r : route) (req : request) (w : env (body_of r)) (c : outbound) :
  account_scoped r = false ->
  c ∈ requests (run (handler r req) w) ->
  headers c = []
  /\ forall k v, (k, v) ∈ params c ->
       v = of_field (req_query req !! k) \/ v = of_field (req_params req !! k).
Proof.
  intros Hr. 
  destruct r; try discriminate Hr; clear Hr; cbn [body_of] in *; run_public;
    try match goal with |- context [truthy ?x] => destruct (truthy x) end;
    try destruct_exchange; cbn;
    try match goal with |- context [response ?e] => destruct (response e) end; cbn;
    intros Hc; try (now apply not_elem_of_nil in Hc);
    apply list_elem_of_singleton in Hc as ->; cbn [headers params];
    (split; [reflexivity|]); intros k v Hin;
    repeat (apply elem_of_cons in Hin as [[= -> ->]|Hin]; [tauto|]);
    now apply not_elem_of_nil in Hin.
Qed.

Lemma public_routes_forward_no_header_witness :
  headers (klines_call (with_credentials [("symbol", "BTCUSDT")])) = []
  /\ forall k v, (k, v) ∈ params (klines_call (with_credentials [("symbol", "BTCUSDT")])) ->
       v = of_field (req_query (with_credentials [("symbol", "BTCUSDT")]) !! k)
       \/ v = of_field (req_params (with_credentials [("symbol", "BTCUSDT")]) !! k).
Proof.
  apply (public_routes_forward_no_header Klines
           (with_credentials [("symbol", "BTCUSDT")]) (answering JNull)).
  - reflexivity.
  - vm_compute. apply list_elem_of_here.
Defined.

(** When the exchange gives no response at all (DNS, connection, timeout),
    every route answers 500 and the body carries the error's message. *)
Theorem transport_failure_is_500
    (r : route) (req : request) (w : env (body_of r)) (c : outbound) error :
  c ∈ requests (run (handler r req) w) ->
  exchange w c = Rejected error ->
  response error = None ->
  replies (run (handler r req) w) = [(500, transport_failure_body r error)].
Proof.
  destruct (account_scoped r) eqn:Hr.
  - unfold run. rewrite (account_route_result r req w Hr).
    destruct (negb _ || negb _); [intros Hc; now apply not_elem_of_nil in Hc|].
    destruct (symbol_missing r req); [intros Hc; now apply not_elem_of_nil in Hc|].
    cbv zeta. set (c0 := signed_request r _ _ _ _).
    intros Hc Hx Hresp.
    assert (c = c0) as ->.
    { destruct (exchange w c0) as [data|e].
      - destruct (on_success_replies_once r data Hr) as (status & body & Hs).
        rewrite Hs in Hc. cbn in Hc. now apply list_elem_of_singleton in Hc.
      - destruct (catch_account_trace (failure_label r) (AxiosError e) w)
          as (tail & Ht & Hreq & _).
        destruct (catch_account _ _ w) as [t' res]. cbn in Ht. subst t'.
        cbn in Hc. fold (requests tail) in Hc. rewrite Hreq in Hc.
        now apply list_elem_of_singleton in Hc. }
    rewrite Hx. unfold catch_account. cbn [error_response_of error_message].
    rewrite Hresp. now destruct r.
  - destruct r; try discriminate Hr; clear Hr; cbn [body_of] in *; run_public;
      try match goal with |- context [truthy ?x] => destruct (truthy x) end;
      try destruct_exchange; cbn;
      try match goal with |- context [response ?e] => destruct (response e) eqn:? end;
      cbn; intros Hc Hx Hresp; try (now apply not_elem_of_nil in Hc);
      apply list_elem_of_singleton in Hc as ->;
      try congruence;
      match goal with
      | H1 : exchange w ?c = Rejected ?e1, H2 : exchange w ?c = Rejected ?e2 |- _ =>
          rewrite H1 in H2; injection H2 as ->
      end;
      try congruence; reflexivity.
Qed.

Lemma transport_failure_is_500_witness :
  replies (run (handler OpenOrders (with_credentials [])) unreachable)
  = [(500, JObj [("error", JStr "connect ETIMEDOUT")])].
Proof.
  apply (transport_failure_is_500 OpenOrders (with_credentials []) unreachable
           (signed_request OpenOrders "key-1" "s3cr3t" 1700000000000 ∅)
           {| message := "connect ETIMEDOUT"; response := None |}).
  - vm_compute. apply list_elem_of_here.
  - reflexivity.
  - reflexivity.
Defined.

(** /myTrades with credentials but without a symbol is answered 400 before
    anything is signed or sent. *)
Theorem myTrades_requires_symbol (req : request) (w : env (body_of MyTrades)) :
  truthy (api_key req) = true -> truthy (api_secret req) = true ->
  absent_or_empty (req_query req !! "symbol") ->
  run (handler MyTrades req) w = [Replied 400 missing_symbol]
  /\ signatures (run (handler MyTrades req) w) = []
  /\ requests (run (handler MyTrades req) w) = [].
Proof.
  intros Hk Hs Hsym. apply truthy_false in Hsym.
  unfold run. rewrite (account_route_result MyTrades req w eq_refl).
  rewrite Hk, Hs. cbn [negb orb symbol_missing]. rewrite Hsym. now cbn.
Qed.

Lemma myTrades_requires_symbol_witness :
  run (handler MyTrades (with_credentials [("symbol", "")])) (answering JNull)
  = [Replied 400 missing_symbol]
  /\ signatures (run (handler MyTrades (with_credentials [("symbol", "")])) (answering JNull)) = []
  /\ requests (run (handler MyTrades (with_credentials [("symbol", "")])) (answering JNull)) = [].
Proof.
  apply (myTrades_requires_symbol (with_credentials [("symbol", "")]) (answering JNull)).
  - reflexivity.
  - reflexivity.
  - right. reflexivity.
Defined.

(** The parameter set an account route signs and sends: the timestamp
    first, then the symbol of /myTrades, then those optional query fields
    that are non-empty, in a fixed order that does not depend on the order
    of the caller's query string; empty fields are left out. *)
Theorem assembled_in_fixed_order (r : route) (timestamp : Z) (query : gmap string string) :
  assembled r timestamp query
  = ("timestamp", VNum timestamp)
      :: required_fields r query ++ present query (optional_names r).
Proof.
  destruct r; try reflexivity;
    unfold assembled, openOrders_params, myTrades_params, set_if_present,
      present, optional_names, required_fields;
    cbn [omap list_omap app].
  - now destruct (truthy (query !! "symbol")).
  - destruct (truthy (query !! "limit")), (truthy (query !! "fromId")),
      (truthy (query !! "startTime")), (truthy (query !! "endTime")); reflexivity.
Qed.

Lemma filter_all {A : Type} (P : A -> Prop) `{!forall x, Decision (P x)} (l : list A) :
  Forall P l -> filter P l = l.
Proof.
  induction 1 as [|x l Hx _ IH]; [reflexivity|].
  rewrite filter_cons_True by exact Hx. now rewrite IH.
Qed.

(** What is signed is what is sent: in the outbound call of an account
    route every parameter has a value, so the HTTP client, which leaves
    undefined parameters out, transmits the whole signed parameter set and
    the signature. *)
Theorem signed_parameters_are_sent
    (r : route) (req : request) (w : env (body_of r)) (c : outbound) :
  account_scoped r = true ->
  c ∈ requests (run (handler r req) w) ->
  sent_params c = params c
  /\ exists secret P,
       (secret, P) ∈ signatures (run (handler r req) w)
       /\ sent_params c = P ++ [("signature", VStr (createBinanceSignature secret P))].
Proof.
  intros Hr Hc.
  destruct (outbound_is_signed_request r req w c Hr Hc)
    as (key & secret & Hkey & Hsecret & Hsym & ->).
  assert (Hall : sent_params (signed_request r key secret (now w) (req_query req))
                 = params (signed_request r key secret (now w) (req_query req))).
  { unfold sent_params. apply filter_all.
    unfold signed_request. cbn [params]. apply Forall_app. split.
    - apply Forall_forall. intros [k v] Hin. cbn.
      destruct (assembled_entries r (now w) (req_query req) k v Hsym Hin)
        as [[_ ->]|(s & _ & ->)]; discriminate.
    - apply Forall_cons. split; [discriminate | apply Forall_nil_2]. }
  split; [exact Hall|].
  exists secret, (assembled r (now w) (req_query req)). split; [|exact Hall].
  pose proof (account_route_trace r req w Hr) as Ht.
  unfold api_key, api_secret in Hkey, Hsecret.
  assert (Hg : negb (truthy (api_key req)) || negb (truthy (api_secret req)) = false).
  { destruct (negb _ || negb _) eqn:Hg; [|reflexivity].
    rewrite Ht in Hc. now apply not_elem_of_nil in Hc. }
  rewrite Hg in Ht.
  destruct Ht as [(_ & _ & body & Ht) | (_ & tail & Ht & _)].
  { rewrite Ht in Hc. now apply not_elem_of_nil in Hc. }
  rewrite Ht. unfold api_secret. rewrite Hsecret. cbn. apply list_elem_of_here.
Qed.

Lemma signed_parameters_are_sent_witness :
  sent_params trades_call = params trades_call
  /\ exists secret P,
       (secret, P) ∈ signatures (run (handler MyTrades trades_request) (answering JNull))
       /\ sent_params trades_call
          = P ++ [("signature", VStr (createBinanceSignature secret P))].
Proof.
  apply (signed_parameters_are_sent MyTrades trades_request (answering JNull) trades_call).
  - reflexivity.
  - vm_compute. apply list_elem_of_here.
Defined.

(** On a 2xx reply the pass-through routes answer 200 with the upstream
    body, unchanged. *)
Theorem passthrough_on_success
    (r : route) (req : request) (w : env (body_of r)) (c : outbound) (data : body_of r) :
  passthrough r = true ->
  c ∈ requests (run (handler r req) w) ->
  exchange w c = Fulfilled data ->
  exists body, passed_body r data = Some body
            /\ replies (run (handler r req) w) = [(200, body)]
            /\ completion (handler r req) w = inr tt.
Proof.
  intros Hp. destruct (account_scoped r) eqn:Hr.
  - unfold run, completion. rewrite (account_route_result r req w Hr).
    destruct (negb _ || negb _); [intros Hc; now apply not_elem_of_nil in Hc|].
    destruct (symbol_missing r req); [intros Hc; now apply not_elem_of_nil in Hc|].
    cbv zeta. set (c0 := signed_request r _ _ _ _).
    intros Hc Hx.
    assert (c = c0) as ->.
    { destruct (exchange w c0) as [d|e].
      - destruct (on_success_replies_once r d Hr) as (status & body & Hs).
        rewrite Hs in Hc. cbn in Hc. now apply list_elem_of_singleton in Hc.
      - destruct (catch_account_trace (failure_label r) (AxiosError e) w)
          as (tail & Ht & Hreq & _).
        destruct (catch_account _ _ w) as [t' res]. cbn in Ht. subst t'.
        cbn in Hc. fold (requests tail) in Hc. rewrite Hreq in Hc.
        now apply list_elem_of_singleton in Hc. }
    rewrite Hx. destruct r; try discriminate Hp; try discriminate Hr;
      cbn in data |- *; now exists data.
  - destruct r; try discriminate Hp; try discriminate Hr; cbn [body_of] in *;
      unfold completion; run_public;
      try match goal with |- context [truthy ?x] => destruct (truthy x) end;
      destruct_exchange; cbn; intros Hc Hx;
      apply list_elem_of_singleton in Hc as ->;
      try congruence;
      match goal with
      | H1 : exchange w ?c = Fulfilled ?d1, H2 : exchange w ?c = Fulfilled ?d2 |- _ =>
          rewrite H1 in H2; injection H2 as ->
      end; now exists data.
Qed.

Lemma passthrough_on_success_witness :
  exists body, passed_body ExchangeInfo (JObj [("timezone", JStr "UTC")]) = Some body
            /\ replies (run (handler ExchangeInfo anonymous)
                            (answering (JObj [("timezone", JStr "UTC")])))
               = [(200, body)]
            /\ completion (handler ExchangeInfo anonymous)
                          (answering (JObj [("timezone", JStr "UTC")])) = inr tt.
Proof.
  apply (passthrough_on_success ExchangeInfo anonymous
           (answering (JObj [("timezone", JStr "UTC")]))
           {| url := "https://api.binance.com/api/v3/exchangeInfo";
              params := []; headers := [] |}).
  - reflexivity.
  - vm_compute. apply list_elem_of_here.
  - reflexivity.
Defined.

Lemma entry_not_empty (k x : string) : k +:+ "=" +:+ x <> "".
Proof. destruct k; [|rewrite string_app_cons]; discriminate. Qed.

Lemma value_prefix_unique (v v' t t' : string) :
  no_ampersand v -> no_ampersand v' ->
  (t = "" \/ exists u, t = "&" +:+ u) ->
  (t' = "" \/ exists u, t' = "&" +:+ u) ->
  v +:+ t = v' +:+ t' -> v = v' /\ t = t'.
Proof.
  revert v'. induction v as [|a v IH]; intros [|b v'] Hv Hv' Ht Ht' E.
  - now split.
  - rewrite string_app_cons in E. cbn in E. destruct Hv' as [Hb _].
    destruct Ht as [->|(u & ->)]; [discriminate|].
    injection E as Eb _. now elim Hb.
  - rewrite string_app_cons in E. cbn in E. destruct Hv as [Ha _].
    destruct Ht' as [->|(u & ->)]; [discriminate|].
    injection E as Ea _. now elim Ha.
  - rewrite !string_app_cons in E. injection E as -> E.
    destruct Hv as [_ Hv], Hv' as [_ Hv'].
    destruct (IH v' Hv Hv' Ht Ht' E) as [-> ->]. now split.
Qed.

Lemma canonical_tail_shape (rest : object value) :
  match rest with [] => "" | _ :: _ => "&" +:+ canonical rest end = ""
  \/ exists u, match rest with [] => "" | _ :: _ => "&" +:+ canonical rest end = "&" +:+ u.
Proof. destruct rest; [now left | right; now eexists]. Qed.

Lemma canonical_rendered_inj (P Q : object value) :
  Forall well_formed_entry P -> Forall well_formed_entry Q ->
  canonical P = canonical Q -> rendered P = rendered Q.
Proof.
  revert Q. induction P as [|[k v] P IH]; intros [|[k' v'] Q] HP HQ E.
  - reflexivity.
  - rewrite canonical_cons in E. symmetry in E. now apply entry_not_empty in E.
  - rewrite canonical_cons in E. now apply entry_not_empty in E.
  - apply Forall_cons in HP as [[Hk Hv] HP], HQ as [[Hk' Hv'] HQ]. cbn [fst snd] in *.
    rewrite !canonical_cons in E.
    destruct (key_prefix_unique _ _ _ _ Hk Hk' E) as [<- E'].
    destruct (value_prefix_unique _ _ _ _ Hv Hv'
                (canonical_tail_shape P) (canonical_tail_shape Q) E') as [Ev Et].
    unfold rendered. cbn [map]. rewrite Ev. f_equal.
    apply IH; try assumption.
    destruct P as [|p P], Q as [|q Q]; try reflexivity; try discriminate Et.
    now apply (String.app_inj "&") in Et.
Qed.

Lemma canonical_of_rendered (P Q : object value) :
  rendered P = rendered Q -> canonical P = canonical Q.
Proof.
  revert Q. induction P as [|[k v] P IH]; intros [|[k' v'] Q] E; try discriminate E.
  - reflexivity.
  - unfold rendered in E. cbn [map] in E. injection E as -> Ev E.
    rewrite !canonical_cons, Ev. do 3 f_equal.
    pose proof (IH Q E) as Hc.
    destruct P, Q; try discriminate E; [reflexivity | now rewrite Hc].
Qed.

(** The canonical string loses nothing on well-formed parameter sets: when
    no key contains [=] and no rendered value contains [&], two parameter
    sets have the same canonical string exactly when they have the same
    keys and rendered values in the same order.  So a signature covers one
    reading of the parameters only. *)
Theorem canonical_string_is_lossless (P Q : object value) :
  Forall well_formed_entry P -> Forall well_formed_entry Q ->
  (queryString P = queryString Q <-> rendered P = rendered Q).
Proof.
  intros HP HQ. rewrite !queryString_canonical. split.
  - now apply canonical_rendered_inj.
  - apply canonical_of_rendered.
Qed.

Lemma canonical_string_is_lossless_witness :
  queryString [("timestamp", VNum 1700000000000); ("limit", VNum 5)]
  = queryString [("timestamp", VStr "1700000000000"); ("limit", VStr "5")]
  <-> rendered [("timestamp", VNum 1700000000000); ("limit", VNum 5)]
      = rendered [("timestamp", VStr "1700000000000"); ("limit", VStr "5")].
Proof.
  apply canonical_string_is_lossless;
    repeat (apply Forall_cons; split; [split; vm_compute; intuition discriminate|]);
    apply Forall_nil_2.
Defined.

(** Without that proviso a value can pose as further parameters. *)
Example ampersand_in_value_forges_parameters :
  queryString [("timestamp", VNum 1); ("symbol", VStr "BTCUSDT&limit=5")]
  = queryString [("timestamp", VNum 1); ("symbol", VStr "BTCUSDT"); ("limit", VStr "5")].
Proof. vm_compute. reflexivity. Qed.

Lemma price_relays_status_witness :
  replies (run (handler Price {| req_headers := ∅; req_query := ∅;
                                 req_params := {[ "symbol" := "BTCUSDT" ]} |}) teapot)
  = [(418, JObj [("error", JStr "Failed to fetch price from Binance");
                 ("details", JObj [("msg", JStr "rate limited by exchange")])])].
Proof.
  apply (price_relays_status
           {| req_headers := ∅; req_query := ∅; req_params := {[ "symbol" := "BTCUSDT" ]} |}
           teapot
           {| message := "Request failed with status code 418";
              response := Some {| response_status := 418;
                                  response_data :=
                                    JObj [("msg", JStr "rate limited by exchange")] |} |}
           {| response_status := 418;
              response_data := JObj [("msg", JStr "rate limited by exchange")] |});
    reflexivity.
Defined.

(** The relay chooses only three statuses of its own, 200, 400 and 500;
    any other status in a reply is the status of the exchange's response to
    the outbound call of that request. *)
Theorem reply_status_origin
    (r : route) (req : request) (w : env (body_of r)) (status : Z) (body : json) :
  (status, body) ∈ replies (run (handler r req) w) ->
  status = 200 \/ status = 400 \/ status = 500
  \/ exists c error resp,
       c ∈ requests (run (handler r req) w)
       /\ exchange w c = Rejected error
       /\ response error = Some resp
       /\ status = response_status resp.
Proof.
  destruct (account_scoped r) eqn:Hr.
  - unfold run. rewrite (account_route_result r req w Hr).
    destruct (negb _ || negb _).
    { cbn. intros Hin. apply list_elem_of_singleton in Hin as [= -> _]. tauto. }
    destruct (symbol_missing r req).
    { cbn. intros Hin. apply list_elem_of_singleton in Hin as [= -> _]. tauto. }
    cbv zeta. set (c0 := signed_request r _ _ _ _).
    destruct (exchange w c0) as [data|error] eqn:Hx.
    + intros Hin. cbn in Hin. fold (replies (on_success r data)) in Hin.
      destruct r; try discriminate Hr; cbn in data, Hin;
        try (apply list_elem_of_singleton in Hin as [= -> _]; tauto).
      destruct data as [[[bs|]]|]; cbn in Hin;
        apply list_elem_of_singleton in Hin as [= -> _]; tauto.
    + unfold catch_account. cbn [error_response_of error_message].
      destruct (response error) as [resp|] eqn:Hresp.
      * destruct (prop "msg" (response_data resp)); cbn; intros Hin.
        -- apply list_elem_of_singleton in Hin as [= -> _].
           do 3 right. exists c0, error, resp. repeat split; try assumption.
           apply list_elem_of_here.
        -- now apply not_elem_of_nil in Hin.
      * cbn. intros Hin. apply list_elem_of_singleton in Hin as [= -> _]. tauto.
  - destruct r; try discriminate Hr; clear Hr; cbn [body_of] in *; run_public;
      try match goal with |- context [truthy ?x] => destruct (truthy x) end;
      try destruct_exchange; cbn;
      try match goal with |- context [response ?e] => destruct (response e) eqn:? end;
      cbn; intros Hin; apply list_elem_of_singleton in Hin as [= -> _];
      try tauto.
    do 3 right. eexists _, _, _. repeat split; try eassumption.
    apply list_elem_of_here.
Qed.

Lemma reply_status_origin_witness :
  418 = 200 \/ 418 = 400 \/ 418 = 500
  \/ exists c error resp,
       c ∈ requests (run (handler Account (with_credentials [])) teapot)
       /\ exchange (D := body_of Account) teapot c = Rejected error
       /\ response error = Some resp
       /\ 418 = response_status resp.
Proof.
  apply (reply_status_origin Account (with_credentials []) teapot 418
           (JObj [("error", JStr "Failed to fetch account info from Binance");
                  ("code", JNum 418);
                  ("message", JStr "rate limited by exchange")])).
  vm_compute. apply list_elem_of_here.
Defined.

(** /ticker/24hr treats an empty symbol like a missing one: the outbound
    call then carries no parameter at all (the exchange answers with every
    ticker); a non-empty symbol is the only parameter. *)
Theorem ticker_symbol_is_optional (req : request) (w : env (body_of Ticker24hr)) :
  requests (run (handler Ticker24hr req) w)
  = [ {| url := BINANCE_API_BASE +:+ "/api/v3/ticker/24hr";
         params := present (req_query req) ["symbol"];
         headers := [] |} ]
  /\ (absent_or_empty (req_query req !! "symbol") ->
      present (req_query req) ["symbol"] = [])
  /\ (forall s, req_query req !! "symbol" = Some s -> s <> "" ->
      present (req_query req) ["symbol"] = [("symbol", VStr s)]).
Proof.
  cbn [body_of] in w. unfold present. cbn [omap list_omap].
  repeat split.
  - run_public. destruct (truthy (req_query req !! "symbol"));
      destruct_exchange; reflexivity.
  - intros Hs. apply truthy_false in Hs. now rewrite Hs.
  - intros s Hs Hne.
    assert (Ht : truthy (req_query req !! "symbol") = true)
      by (apply truthy_true; now exists s).
    now rewrite Ht, Hs.
Qed.

Lemma ticker_symbol_is_optional_witness :
  requests (run (handler Ticker24hr (request_of [] [("symbol", "")])) (answering JNull))
  = [ {| url := "https://api.binance.com/api/v3/ticker/24hr";
         params := []; headers := [] |} ].
Proof.
  destruct (ticker_symbol_is_optional (request_of [] [("symbol", "")]) (answering JNull))
    as (Hreq & Hempty & _).
  rewrite Hreq, Hempty; [reflexivity|]. right. reflexivity.
Defined.
